(** * arvet-slam: association of timestamped series, trial results and pose errors

    A shallow embedding of the algorithmic parts of [arvet_slam]:

    - [associate_data] of [dataset/tum/tum_loader.py] and
      [dataset/euroc/euroc_loader.py] (the two copies differ only in the
      tolerance they hand to [associate]);
    - [make_camera_pose], [find_files] and the path handling of
      [import_dataset] of [dataset/tum/tum_loader.py];
    - [make_pose_error] and [FrameErrorResult.get_results] of
      [metrics/frame_error/frame_error_result.py];
    - the trial protocol of [systems/slam/orbslam2.py], whose code is known
      only through its tests and is modelled from the specification.

    Python dictionaries are [gmap]s, Python sets are [gset]s, a [KeyError]
    is [None] in the option monad. Timestamps are integer ticks (the EuRoC
    loader reads them with [int]); of the [float] keys of the TUM loader an
    integer keeps the equality and the order, and the subtraction of two
    keys is a parameter where the code subtracts. Coordinates are real
    numbers and a NaN is the absent value of an [option]. *)

From Stdlib Require Import ZArith List Reals Lra Ascii String.
From stdpp Require Import gmap strings list fin_maps sorting.

#[local] Set Warnings "-clear-no-such-hyp".

(** ** Python's [sorted] on rows

    A row is the Python list [[key, payload_1, ..., payload_n]]. [sorted]
    compares such lists lexicographically; every list that the loaders
    sort has pairwise distinct keys (they come from a set or from the items
    of a dictionary), so the comparison is decided by the key. *)

Abbreviation row V := (Z * list V)%type.

Section rows.
Context {V : Type}.

Definition row_le (r1 r2 : row V) : Prop := (r1.1 ≤ r2.1)%Z.

#[global] Instance row_le_dec (r1 r2 : row V) : Decision (row_le r1 r2).
Proof. unfold row_le. apply _. Defined.

#[global] Instance row_le_total : Total row_le.
Proof. intros r1 r2. unfold row_le. lia. Qed.

#[global] Instance row_le_trans : Transitive row_le.
Proof. intros r1 r2 r3. unfold row_le. lia. Qed.

Definition sorted (rows : list (row V)) : list (row V) := merge_sort row_le rows.
End rows.

(** ** [associate_data] *)

Section associate_data.
Context {V : Type}.

(** [arvet.util.associate.associate(first, second, offset, max_difference)]
    belongs to the [arvet] package, which the loaders import. It returns
    the list of matched [(first_key, second_key)] pairs. *)
Variable associate : gmap Z V → gmap Z V → Z → Z → list (Z * Z).

(** The tolerance: [1] in the TUM loader, [3] in the EuRoC loader. *)
Variable max_difference : Z.

(** [[key, root_map[key]] + [m[key] for m in maps]] *)
Definition make_row (root_map : gmap Z V) (maps : list (gmap Z V)) (key : Z)
    : option (row V) :=
    v ← root_map !! key;
    vs ← mapM (λ m : gmap Z V, m !! key) maps;
    Some (key, v :: vs).

(** [{root_key: other_map[other_key] for root_key, other_key in matches}] *)
Definition rekey (other_map : gmap Z V) (matches : list (Z * Z))
    : option (gmap Z V) :=
    foldl (λ (acc : option (gmap Z V)) (m : Z * Z),
             rekeyed ← acc;
             v ← other_map !! m.2;
             Some (<[m.1 := v]> rekeyed))
          (Some ∅) matches.

(** The loop of the general path: one step per secondary series. *)
Definition rekey_step (root_map : gmap Z V)
      (st : option (gset Z * list (gmap Z V))) (other_map : gmap Z V)
    : option (gset Z * list (gmap Z V)) :=
    '(root_keys, rekeyed_maps) ← st;
    rekeyed_map ← rekey other_map (associate root_map other_map 0 max_difference);
    Some (root_keys ∩ dom rekeyed_map, rekeyed_maps ++ [rekeyed_map]).

Definition all_same (root_keys : gset Z) (args : list (gmap Z V)) : bool :=
    forallb (λ other_map : gmap Z V, bool_decide (dom other_map = root_keys)) args.

Definition associate_data (root_map : gmap Z V) (args : list (gmap Z V))
    : option (list (row V)) :=
    if bool_decide (length args ≤ 0) then
      Some (sorted ((λ kv : Z * V, (kv.1, [kv.2])) <$> map_to_list root_map))
    else
      let root_keys := dom root_map in
      if all_same root_keys args then
        rows ← mapM (make_row root_map args) (elements root_keys);
        Some (sorted rows)
      else
        '(root_keys, rekeyed_maps) ←
          foldl (rekey_step root_map) (Some (root_keys, [])) args;
        rows ← mapM (make_row root_map rekeyed_maps) (elements root_keys);
        Some (sorted rows).

(** The set of reference keys that [associate] matched in one series. *)
Definition matched_keys (root_map other_map : gmap Z V) : gset Z :=
    list_to_set (associate root_map other_map 0 max_difference).*1.

(** [associate] only reports secondary keys that the secondary series has:
    the loaders index [other_map] with them, and a key it lacks would raise
    a [KeyError]. *)
Definition matches_in_range (root_map : gmap Z V) (args : list (gmap Z V))
  : Prop :=
  ∀ other_map a b, other_map ∈ args →
    (a, b) ∈ associate root_map other_map 0 max_difference →
    b ∈ dom other_map.

End associate_data.


(** What it means for [rows] to be the table of the keys [keys] over the
    series [maps]: ascending keys, one row per key of [keys] and no other,
    and in each row the payloads of the series, in the order of [maps]. *)

Section table.
Context {V : Type}.

Definition row_payloads (maps : list (gmap Z V)) (r : row V) : Prop :=
  Forall2 (λ (m : gmap Z V) (x : V), m !! r.1 = Some x) maps r.2.

Definition is_table (keys : gset Z) (maps : list (gmap Z V))
    (rows : list (row V)) : Prop :=
  StronglySorted Z.lt rows.*1
  ∧ (∀ k, k ∈ rows.*1 ↔ k ∈ keys)
  ∧ length rows = size keys
  ∧ Forall (row_payloads maps) rows.

End table.

(** ** The matching behind [associate]

    Modelled from the spec: [arvet.util.associate.associate] is imported by
    both loaders and is not among the source files. Section 4.1 describes it
    as a greedy matching: the candidate pairs are the pairs of a reference
    key and a secondary key whose absolute difference does not exceed
    [max_difference]; they are sorted by absolute difference and consumed in
    that order, a pair being rejected when one of its keys is already
    claimed. Ties are broken by the reference key, then by the secondary
    key (section 9 suggests the sort key (difference, reference key)).
    The loaders always pass [offset = 0]; the spec does not describe the
    offset and this model ignores it. *)

Section greedy.
Context {V : Type}.

Definition candidate : Type := Z * (Z * Z).

Definition candidate_le (c1 c2 : candidate) : Prop :=
  (c1.1 < c2.1 ∨
   (c1.1 = c2.1 ∧
    (c1.2.1 < c2.2.1 ∨ (c1.2.1 = c2.2.1 ∧ c1.2.2 ≤ c2.2.2))))%Z.

#[global] Instance candidate_le_dec (c1 c2 : candidate) :
  Decision (candidate_le c1 c2).
Proof. unfold candidate_le. apply _. Defined.

Definition potential_matches (max_difference : Z)
    (first_keys second_keys : list Z) : list candidate :=
  a ← first_keys;
  b ← second_keys;
  if bool_decide (Z.abs (a - b) ≤ max_difference)%Z
  then [(Z.abs (a - b), (a, b))] else [].

Fixpoint consume (candidates : list candidate)
    (claimed_first claimed_second : gset Z) : list (Z * Z) :=
  match candidates with
  | [] => []
  | (_, (a, b)) :: rest =>
      if bool_decide ((a ∉ claimed_first) ∧ (b ∉ claimed_second))
      then (a, b) :: consume rest ({[a]} ∪ claimed_first) ({[b]} ∪ claimed_second)
      else consume rest claimed_first claimed_second
  end.

Definition greedy_associate (first second : gmap Z V)
    (offset max_difference : Z) : list (Z * Z) :=
  consume
    (merge_sort candidate_le
       (potential_matches max_difference
          (elements (dom first)) (elements (dom second))))
    ∅ ∅.

End greedy.

(** ** Sample series

    A reference series and four secondary series: one with the same keys,
    two whose keys are near the reference keys, one far from all of them. *)

Definition demo_root : gmap Z Z := {[ 1%Z := 10%Z; 5%Z := 50%Z; 9%Z := 90%Z ]}.
Definition demo_same : gmap Z Z := {[ 9%Z := 91%Z; 1%Z := 11%Z; 5%Z := 51%Z ]}.
Definition demo_near : gmap Z Z := {[ 1%Z := 12%Z; 6%Z := 62%Z ]}.
Definition demo_far : gmap Z Z := {[ 2%Z := 23%Z; 5%Z := 53%Z; 20%Z := 203%Z ]}.
Definition demo_none : gmap Z Z := {[ 100%Z := 4%Z ]}.

(** ** Poses

    [arvet.util.transform.Transform] keeps a location and an orientation
    quaternion. The loaders build it from a location and a quaternion given
    scalar first ([w_first=True]); the class normalises the quaternion it
    is given ([quat_normalise]), so the quaternion of a pose has norm one.
    The zero quaternion, which is no orientation and which the class would
    divide by zero, is outside this model. *)

Section geometry.
Local Open Scope R_scope.

Definition vec3 : Type := R * R * R.
Definition quat : Type := R * R * R * R.

Record Transform : Type := mkTransform {
  location : vec3;
  rotation_quat : quat  (* [rotation_quat(w_first=True)] *)
}.

Definition vec_sub (a b : vec3) : vec3 :=
  let '(ax, ay, az) := a in
  let '(bx, by_, bz) := b in
  (ax - bx, ay - by_, az - bz).

Definition vec_div (a : vec3) (s : R) : vec3 :=
  let '(ax, ay, az) := a in (ax / s, ay / s, az / s).

(** [np.dot] on two vectors of length three *)
Definition np_dot (a b : vec3) : R :=
  let '(ax, ay, az) := a in
  let '(bx, by_, bz) := b in
  ax * bx + ay * by_ + az * bz.

(** [np.linalg.norm] on a vector of length three *)
Definition np_linalg_norm (a : vec3) : R := sqrt (np_dot a a).

Definition quat_dot (p q : quat) : R :=
  let '(pw, px, py, pz) := p in
  let '(qw, qx, qy, qz) := q in
  pw * qw + px * qx + py * qy + pz * qz.

Definition unit_quat (q : quat) : Prop := quat_dot q q = 1.

(** The test [r > 0] of the Python source, as a boolean. *)
Definition positive (r : R) : bool := if Rlt_dec 0 r then true else false.

(** What the constructor of [Transform] keeps of a quaternion: the
    quaternion divided by its norm. *)
Definition quat_normalise (q : quat) : quat :=
  let norm := sqrt (quat_dot q q) in
  let '(qw, qx, qy, qz) := q in
  (qw / norm, qx / norm, qy / norm, qz / norm).

(** [make_camera_pose], identical in the TUM and the EuRoC loader:
    [tf.Transform(location=(tz, -tx, -ty), rotation=(qw, qz, -qx, -qy),
    w_first=True)]. *)
Definition make_camera_pose (tx ty tz qw qx qy qz : R) : Transform :=
  {| location := (tz, - tx, - ty);
     rotation_quat := quat_normalise (qw, qz, - qx, - qy) |}.

(** The worker's pose matrix: twelve values, row-major, the three rows of
    [[R | t]]; in the 4x4 form the last row is [0 0 0 1]. *)
Record PoseMatrix : Type := mkPoseMatrix {
  m00 : R; m01 : R; m02 : R; m03 : R;
  m10 : R; m11 : R; m12 : R; m13 : R;
  m20 : R; m21 : R; m22 : R; m23 : R
}.

Definition mat3 : Type := (R * R * R) * (R * R * R) * (R * R * R).

(** Modelled from the spec: [make_relative_pose] of
    [systems/slam/orbslam2.py] is not among the source files; only its
    tests are. Section 4.2: the harness remaps the translation
    [(tx, ty, tz)] to [(tz, -tx, -ty)] and remaps the rotation accordingly,
    that is, by the same exchange of axes: the new axes are the old third
    axis, minus the old first axis and minus the old second axis. The
    conversion of a rotation matrix to a quaternion is the library's
    ([transforms3d]) and is the parameter [mat2quat]. *)
Definition remap_rotation (m : PoseMatrix) : mat3 :=
  ((m22 m, - m20 m, - m21 m),
   (- m02 m, m00 m, m01 m),
   (- m12 m, m10 m, m11 m)).

Definition make_relative_pose (mat2quat : mat3 -> quat) (m : PoseMatrix)
  : Transform :=
  {| location := (m23 m, - m03 m, - m13 m);
     rotation_quat := mat2quat (remap_rotation m) |}.

(** Modelled from the spec: [arvet.util.transform.quat_diff] is not among
    the source files. Section 4.3: the minimal rotation angle between the
    two orientations, always defined and non-negative. For unit quaternions
    that angle is twice the arccosine of the absolute value of their inner
    product (a quaternion and its opposite are the same orientation). *)
Definition quat_diff (q1 q2 : quat) : R :=
  2 * acos (Rmin 1 (Rabs (quat_dot q1 q2))).

End geometry.

(** ** [PoseError] and [make_pose_error] *)

Module PoseError.
Record t : Type := mk {
  x : R;
  y : R;
  z : R;
  length : R;
  direction : option R;  (* [None] is [np.nan] *)
  rot : R
}.
End PoseError.

Section pose_error.
Local Open Scope R_scope.

(** The angle that [make_pose_error] computes when both norms are positive. *)
Definition error_direction (trans_error reference_location : vec3) : R :=
  let trans_error_length := np_linalg_norm trans_error in
  let reference_norm := np_linalg_norm reference_location in
  let unit_reference := vec_div reference_location reference_norm in
  let dot_product := np_dot (vec_div trans_error trans_error_length) unit_reference in
  acos (Rmin 1 (Rmax 0 dot_product)).

Definition make_pose_error (estimated_pose reference_pose : Transform)
  : PoseError.t :=
  let trans_error := vec_sub (location estimated_pose) (location reference_pose) in
  let trans_error_length := np_linalg_norm trans_error in
  let trans_error_direction :=
    if positive trans_error_length then
      let reference_norm := np_linalg_norm (location reference_pose) in
      if positive reference_norm then
        let unit_reference := vec_div (location reference_pose) reference_norm in
        let dot_product :=
          np_dot (vec_div trans_error trans_error_length) unit_reference in
        Some (acos (Rmin 1 (Rmax 0 dot_product)))
      else None
    else None in
  let rot_error :=
    quat_diff (rotation_quat estimated_pose) (rotation_quat reference_pose) in
  {| PoseError.x := trans_error.1.1;
     PoseError.y := trans_error.1.2;
     PoseError.z := trans_error.2;
     PoseError.length := trans_error_length;
     PoseError.direction := trans_error_direction;
     PoseError.rot := rot_error |}.

End pose_error.

(** ** Sample poses

    The matrix of [test_rearranges_location_coordinates], and two poses one
    unit apart along the first axis. *)

Definition test_frame_delta : PoseMatrix :=
  {| m00 := 1; m01 := 0; m02 := 0; m03 := 10;
     m10 := 0; m11 := 1; m12 := 0; m13 := -22.4;
     m20 := 0; m21 := 0; m22 := 1; m23 := 13.2 |}%R.

Definition demo_origin : Transform := make_camera_pose 0 0 0 1 0 0 0.
Definition demo_ahead : Transform := make_camera_pose 0 0 1 1 0 0 0.

(** ** Finding the files of a TUM dataset

    [find_files] and the first two steps of [import_dataset] of
    [dataset/tum/tum_loader.py]. The file system is what the two functions
    observe of it: [os.path.isfile], [os.path.isdir] and [os.scandir],
    which lists a directory as pairs of an entry name and its [is_dir()],
    and raises on what is not a directory. *)

Section tum_files.
Local Open Scope string_scope.

Inductive exn : Type :=
| FileNotFoundError
| NotADirectoryError
| OSError.

(** What a call does: it returns, it raises, or the loop is still running
    when the fuel is spent. *)
Inductive outcome (A : Type) : Type :=
| Return (a : A)
| Raise (e : exn)
| OutOfFuel.

#[global] Arguments Return {A} a.
#[global] Arguments Raise {A} e.
#[global] Arguments OutOfFuel {A}.

Record FileSystem : Type := mkFileSystem {
  isfile : string → bool;
  isdir : string → bool;
  scandir : string → option (list (string * bool))
}.

Definition startswith_sep (s : string) : bool :=
  match s with
  | String c _ => bool_decide (c = "/"%char)
  | EmptyString => false
  end.

Fixpoint endswith_sep (s : string) : bool :=
  match s with
  | EmptyString => false
  | String c EmptyString => bool_decide (c = "/"%char)
  | String _ rest => endswith_sep rest
  end.

(** [os.path.join] of [posixpath], on two components *)
Definition os_path_join (a b : string) : string :=
  if startswith_sep b then b
  else if bool_decide (a = "") || endswith_sep a then a +:+ b
  else a +:+ "/" +:+ b.

Definition excluded_folders : gset string :=
  {[ "depth"; "rgb"; "__MACOSX" ]}.

(** The paths that one pass over a directory listing adds to [to_search] *)
Definition subdirectories (candidate_root : string)
    (entries : list (string * bool)) : list string :=
  (λ entry : string * bool, os_path_join candidate_root entry.1)
    <$> filter (λ entry : string * bool,
                  entry.2 = true ∧ entry.1 ∉ excluded_folders) entries.

(** The [while] loop of [find_files]; [to_search.pop()] takes an arbitrary
    element of the set, here the first of [elements]. *)
Fixpoint find_files_loop (fs : FileSystem) (fuel : nat)
    (to_search : gset string) : outcome (string * string * string * string) :=
  match fuel with
  | O => OutOfFuel
  | S fuel =>
      match elements to_search with
      | [] => Raise FileNotFoundError
      | candidate_root :: _ =>
          let to_search := to_search ∖ {[ candidate_root ]} in
          let rgb_path := os_path_join candidate_root "rgb.txt" in
          let trajectory_path := os_path_join candidate_root "groundtruth.txt" in
          let depth_path := os_path_join candidate_root "depth.txt" in
          if isfile fs rgb_path && isfile fs trajectory_path
             && isfile fs depth_path
          then Return (candidate_root, rgb_path, depth_path, trajectory_path)
          else
            match scandir fs candidate_root with
            | None => Raise OSError
            | Some entries =>
                find_files_loop fs fuel
                  (to_search ∪ list_to_set (subdirectories candidate_root entries))
            end
      end
  end.

Definition find_files (fs : FileSystem) (fuel : nat) (base_root : string)
  : outcome (string * string * string * string) :=
  find_files_loop fs fuel {[ base_root ]}.

(** The local variables of [import_dataset] after step 1, and with them
    the file that each reader of step 2 is given:
    [read_image_filenames(rgb_path)], [read_trajectory(trajectory_path)],
    [read_image_filenames(depth_path)]. *)
Record ImportPaths : Type := mkImportPaths {
  root_folder : string;
  rgb_path : string;
  trajectory_path : string;
  depth_path : string
}.

Definition image_files_source (p : ImportPaths) : string := rgb_path p.
Definition trajectory_source (p : ImportPaths) : string := trajectory_path p.
Definition depth_files_source (p : ImportPaths) : string := depth_path p.

Definition import_dataset_paths (fs : FileSystem) (fuel : nat)
    (root_folder : string) : outcome ImportPaths :=
  if negb (isdir fs root_folder) then Raise NotADirectoryError
  else
    match find_files fs fuel root_folder with
    | Return (root_folder, rgb_path, trajectory_path, depth_path) =>
        Return (mkImportPaths root_folder rgb_path trajectory_path depth_path)
    | Raise e => Raise e
    | OutOfFuel => OutOfFuel
    end.

(** A download folder holding one extracted sequence. *)
Definition demo_fs : FileSystem :=
  {| isfile := λ p, bool_decide (p ∈ [ "data/seq/rgb.txt";
                                       "data/seq/depth.txt";
                                       "data/seq/groundtruth.txt";
                                       "data/readme.txt" ]);
     isdir := λ p, bool_decide (p ∈ [ "data"; "data/seq";
                                      "data/seq/rgb"; "data/seq/depth" ]);
     scandir := λ p,
       if bool_decide (p = "data")
       then Some [ ("readme.txt", false); ("seq", true) ]
       else if bool_decide (p = "data/seq")
       then Some [ ("rgb", true); ("depth", true); ("rgb.txt", false);
                   ("depth.txt", false); ("groundtruth.txt", false) ]
       else if bool_decide (p = "data/seq/rgb") || bool_decide (p = "data/seq/depth")
       then Some []
       else None |}.

End tum_files.

(** ** [FrameErrorResult.get_results]

    Values of any Python type are the elements of one type [Value]. The
    five numpy aggregates are named by [np_func] and interpreted by the
    parameter [np]; [nan] is [np.nan] as a value. *)

Inductive np_func : Type := np_min | np_max | np_mean | np_median | np_std.

Section frame_error_result.
Context {Value : Type}.
Variable nan : Value.
Variable np : np_func → list Value → Value.
Local Open Scope string_scope.

(** A [FrameError], as far as [get_properties] reads it: for each column
    name of its [ColumnList] the value [self.columns.get_value(self, name)],
    and its two property dictionaries. *)
Record FrameError : Type := mkFrameError {
  column_values : gmap string Value;
  system_properties : gmap string Value;
  image_properties : gmap string Value
}.

Record TrialErrors : Type := mkTrialErrors {
  frame_errors : list FrameError;
  frames_lost : list Value;
  frames_found : list Value;
  times_lost : list Value;
  times_found : list Value;
  distances_lost : list Value;
  distances_found : list Value
}.

Record FrameErrorResult : Type := mkFrameErrorResult {
  errors : list TrialErrors;
  image_source_properties : gmap string Value;
  metric_properties : gmap string Value;
  frame_columns : list string
}.

(** [{k: d[k] for k in d if k in columns}] *)
Definition restrict (columns : gset string) (d : gmap string Value)
  : gmap string Value :=
  filter (λ kv : string * Value, kv.1 ∈ columns) d.

(** [FrameError.get_properties(columns, other_properties)], with both
    arguments given. In [{**a, **b}] the entries of [b] win. *)
Definition get_properties (self : FrameError) (columns : gset string)
    (other_properties : gmap string Value) : gmap string Value :=
  let error_properties := restrict columns (column_values self) in
  let image_properties := restrict columns (image_properties self) in
  let system_properties := restrict columns (system_properties self) in
  error_properties ∪ (system_properties ∪ (image_properties ∪ other_properties)).

Definition get_columns (self : FrameErrorResult) : gset string :=
  let funcs := ["min"; "max"; "mean"; "median"; "std"] in
  let values := ["frames_lost"; "frames_found"; "times_lost"; "times_found";
                 "distance_lost"; "distance_found"] in
  list_to_set (func ← funcs; val ← values; [func +:+ "_" +:+ val])
  ∪ dom (image_source_properties self)
  ∪ dom (metric_properties self)
  ∪ list_to_set (frame_columns self).

(** The two tables of [get_results]. The second component of an entry of
    [values] is the attribute that [getattr] reads. *)
Definition funcs : list (string * np_func) :=
  [("min", np_min); ("max", np_max); ("mean", np_mean);
   ("median", np_median); ("std", np_std)].

Definition values : list (string * (TrialErrors → list Value)) :=
  [("frames_lost", frames_lost); ("frames_found", frames_found);
   ("times_lost", times_lost); ("times_found", times_found);
   ("distance_lost", distances_lost); ("distance_found", distances_found)].

Definition columns_to_compute (columns : gset string)
  : list (string * np_func * (TrialErrors → list Value)) :=
  value ← values;
  func ← funcs;
  if bool_decide (func.1 +:+ "_" +:+ value.1 ∈ columns)
  then [(func.1 +:+ "_" +:+ value.1, func.2, value.2)] else [].

(** The inner loop: the aggregates of one trial, written into
    [other_properties]. *)
Definition compute_columns
    (to_compute : list (string * np_func * (TrialErrors → list Value)))
    (trial_errors : TrialErrors) (other_properties : gmap string Value)
  : gmap string Value :=
  foldl (λ (props : gmap string Value)
           (entry : string * np_func * (TrialErrors → list Value)),
           let data := entry.2 trial_errors in
           <[ entry.1.1 :=
                if bool_decide (0 < length data)%nat
                then np entry.1.2 data else nan ]> props)
        other_properties to_compute.

Definition get_results (self : FrameErrorResult)
    (columns : option (gset string)) : list (gmap string Value) :=
  let columns := default (get_columns self) columns in
  let other_properties := restrict columns (image_source_properties self) in
  let other_properties :=
    restrict columns (metric_properties self) ∪ other_properties in
  let to_compute := columns_to_compute columns in
  (foldl (λ (st : gmap string Value * list (gmap string Value))
            (trial_errors : TrialErrors),
            let other_properties := compute_columns to_compute trial_errors st.1 in
            (other_properties,
             (st.2 ++ ((λ frame_error : FrameError,
                          get_properties frame_error columns other_properties)
                         <$> frame_errors trial_errors))%list))
         (other_properties, []) (errors self)).2.

(** The names of the form [<func>_<series>] *)
Definition aggregate_name (name : string) : Prop :=
  ∃ func_name col_name,
    func_name ∈ ["min"; "max"; "mean"; "median"; "std"]
    ∧ col_name ∈ ["frames_lost"; "frames_found"; "times_lost"; "times_found";
                  "distance_lost"; "distance_found"]
    ∧ name = func_name +:+ "_" +:+ col_name.

End frame_error_result.

(** ** The trial protocol

    Modelled from the spec: [systems/slam/orbslam2.py], with [start_trial],
    [process_image] and [finish_trial], is not among the source files; only
    its tests are. The model follows sections 3 and 4.2 of the spec. The
    worker process and the two channels are outside the model: what the
    worker answers is an argument of [start] (the readiness token arrived
    in time or not) and of [finish] (the returned payload, or none when the
    wait timed out). The estimated motion of a FrameRecord is left out: no
    property below reads it. *)

Inductive TrialState : Type := NOT_STARTED | RUNNING | FINISHED | FAILED.

Inductive TrackingState : Type := NOT_INITIALIZED | OK | LOST.

Inductive TrialError : Type := UsageError | StartupError | TerminationError.

(** One entry of the returned payload:
    [[processing_time, num_features, num_matches, tracking_state, pose_matrix]] *)
Record FrameStats : Type := mkFrameStats {
  stats_processing_time : R;
  stats_num_features : Z;
  stats_num_matches : Z;
  stats_tracking_state : TrackingState;
  stats_pose_matrix : PoseMatrix
}.

Record FrameRecord : Type := mkFrameRecord {
  timestamp : Z;
  estimated_pose : option Transform;
  tracking_state : TrackingState;
  num_features : Z;
  num_matches : Z;
  processing_time : R
}.

Record TrialResult : Type := mkTrialResult {
  success : bool;
  results : list FrameRecord
}.

(** A trial: its state and the timestamps passed to [process], in feed
    order. *)
Record Trial : Type := mkTrial {
  state : TrialState;
  fed : list Z
}.

Section trial.
Variable mat2quat : mat3 → quat.

Definition new_trial : Trial := mkTrial NOT_STARTED [].

(** [start(sequence_type)]: a no-op on a source that is not sequential;
    otherwise the worker is spawned and the readiness token awaited. A
    second [start] without [finish] in between is rejected as a usage
    error. *)
Definition start (sequential ready : bool) (t : Trial)
  : Trial * option TrialError :=
  if negb sequential then (t, None)
  else
    match state t with
    | NOT_STARTED =>
        if ready then (mkTrial RUNNING (fed t), None)
        else (mkTrial FAILED (fed t), Some StartupError)
    | _ => (t, Some UsageError)
    end.

(** [process(frame, timestamp)] *)
Definition process (timestamp : Z) (t : Trial) : Trial * option TrialError :=
  match state t with
  | RUNNING => (mkTrial RUNNING (fed t ++ [timestamp]), None)
  | _ => (t, Some UsageError)
  end.

(** The returned payload is a mapping; it is kept as the list of its items
    in the order the worker returned them. *)
Fixpoint lookup_returned (timestamp : Z) (returned : list (Z * FrameStats))
  : option FrameStats :=
  match returned with
  | [] => None
  | (ts, stats) :: returned =>
      if bool_decide (ts = timestamp) then Some stats
      else lookup_returned timestamp returned
  end.

(** Pose and motion may be populated only when the tracking state is
    [OK]; the pose is the worker's, taken to the canonical frame. *)
Definition make_frame_record (timestamp : Z) (stats : FrameStats)
  : FrameRecord :=
  {| timestamp := timestamp;
     estimated_pose :=
       match stats_tracking_state stats with
       | OK => Some (make_relative_pose mat2quat (stats_pose_matrix stats))
       | _ => None
       end;
     tracking_state := stats_tracking_state stats;
     num_features := stats_num_features stats;
     num_matches := stats_num_matches stats;
     processing_time := stats_processing_time stats |}.

(** [finish()]: the new trial, and either an error or the trial result
    with the timestamps that the logged warnings refer to. A warning is
    logged for every returned timestamp that was never fed (section 4.2)
    and for every fed timestamp that the worker returned nothing for (the
    round trip of section 8). *)
Definition finish (payload : option (list (Z * FrameStats))) (t : Trial)
  : Trial * (TrialError + TrialResult * list Z) :=
  match state t with
  | RUNNING =>
      match payload with
      | None => (mkTrial FAILED (fed t), inl TerminationError)
      | Some returned =>
          let warnings :=
            filter (λ ts : Z, ts ∉ fed t) returned.*1
            ++ filter (λ ts : Z, ts ∉ returned.*1) (fed t) in
          let records :=
            omap (λ ts : Z,
                    make_frame_record ts <$> lookup_returned ts returned)
                 (fed t) in
          (mkTrial FINISHED (fed t),
           inr ({| success := bool_decide (0 < length records)%nat;
                   results := records |},
                warnings))
      end
  | _ => (t, inl UsageError)
  end.

(** [process] over a list of timestamps, stopping at the first error *)
Definition process_all (timestamps : list Z) (t : Trial) : Trial :=
  foldl (λ (t : Trial) (ts : Z), (process ts t).1) t timestamps.

End trial.

(** The worker of the tests of [finish_trial]: frame [idx] has timestamp
    [1.3 * idx], here in tenths, and the worker answers for every index
    below ten that satisfies [keep]. *)
Definition test_stats (idx : Z) : FrameStats :=
  {| stats_processing_time := (0.122 + 0.09 * IZR idx)%R;
     stats_num_features := 15 + idx;
     stats_num_matches := 6 + idx;
     stats_tracking_state := OK;
     stats_pose_matrix :=
       {| m00 := 1; m01 := 0; m02 := 0; m03 := IZR idx;
          m10 := 0; m11 := 1; m12 := 0; m13 := -0.1 * IZR idx;
          m20 := 0; m21 := 0; m22 := 1; m23 := 0.22 * (14 - IZR idx) |}%R |}.

Definition test_returned (keep : Z → bool) : list (Z * FrameStats) :=
  (λ idx : Z, (13 * idx, test_stats idx)%Z)
    <$> filter (λ idx : Z, keep idx = true) (seqZ 0 10).

Definition test_fed : list Z := (λ idx : Z, (13 * idx)%Z) <$> seqZ 0 10.

(** The rotation part of every test matrix is the identity, whose
    quaternion is [(1, 0, 0, 0)]: on these matrices the library's conversion
    is the constant function. *)
Definition test_mat2quat (m : mat3) : quat := (1, 0, 0, 0)%R.

(** The trial of the round-trip property: ten frames fed, and a worker that
    answers for all of them but the one of index five. *)
Definition test_trial : Trial :=
  process_all test_fed (start true true new_trial).1.

Definition test_returned_but_5 : list (Z * FrameStats) :=
  test_returned (λ idx : Z, negb (idx =? 5)%Z).

(** ** The frames of a TUM import

    The loop of step 3 of [import_dataset] of [dataset/tum/tum_loader.py],
    as far as the rows decide it: each row is unpacked into a timestamp and
    three payloads (an unpacking of any other length raises [ValueError],
    here [None]), and the timestamps are re-zeroed on the first one.

    The keys of a TUM import are the [float] values that
    [read_image_filenames] parses. As keys of a dictionary and under
    [sorted] only their equality and their order count, which an integer
    represents; the difference [timestamp - first_timestamp] is a
    floating-point operation, rounded to the nearest [float], so that two
    different keys can have the same difference. The subtraction is
    therefore the parameter [sub], with results of a type [T] of its own;
    nothing is assumed of it here. *)

Section tum_import.
Context {V T : Type}.
Variable sub : Z → Z → T.

Definition import_step
    (st : option (option Z * list (T * V * V * V))) (r : row V)
  : option (option Z * list (T * V * V * V)) :=
  '(first_timestamp, frames) ← st;
  match r.2 with
  | [image_file; camera_pose; depth_file] =>
      let first_timestamp := default r.1 first_timestamp in
      let timestamp := sub r.1 first_timestamp in
      Some (Some first_timestamp,
            frames ++ [(timestamp, image_file, camera_pose, depth_file)])
  | _ => None
  end.

Definition import_frames (all_metadata : list (row V))
  : option (list (T * V * V * V)) :=
  snd <$> foldl import_step (Some (None, [])) all_metadata.

(** Steps 3 of [import_dataset]: the association and the loop. *)
Definition import_dataset_frames
    (associate : gmap Z V → gmap Z V → Z → Z → list (Z * Z))
    (image_files trajectory depth_files : gmap Z V)
  : option (list (T * V * V * V)) :=
  all_metadata ← associate_data associate 1 image_files [trajectory; depth_files];
  import_frames all_metadata.

End tum_import.

(** What one rekeyed map of the general path holds: under a reference key,
    the payload that the secondary series has under a key that [associate]
    matched with it. *)
Definition rekeyed_from {V : Type}
    (associate : gmap Z V → gmap Z V → Z → Z → list (Z * Z))
    (max_difference : Z) (root other rekeyed : gmap Z V) : Prop :=
  ∀ k v, rekeyed !! k = Some v →
    ∃ b, (k, b) ∈ associate root other 0%Z max_difference
         ∧ other !! b = Some v.

(** A matcher that reports a secondary key which the secondary series does
    not have. *)
Definition stale_associate (first second : gmap Z Z) (offset max_difference : Z)
  : list (Z * Z) := [(1, 7)]%Z.

(** ** The TUM dataset folders

    [dataset_names] and [TUMManager.find_roots] of
    [dataset/tum/tum_manager.py]. *)

Section tum_manager.
Local Open Scope string_scope.

Definition dataset_names : list string :=
  [
    "rgbd_dataset_freiburg1_xyz";
    "rgbd_dataset_freiburg1_rpy";
    "rgbd_dataset_freiburg2_xyz";
    "rgbd_dataset_freiburg2_rpy";
    "rgbd_dataset_freiburg1_360";
    "rgbd_dataset_freiburg1_floor";
    "rgbd_dataset_freiburg1_desk";
    "rgbd_dataset_freiburg1_desk2";
    "rgbd_dataset_freiburg1_room";
    "rgbd_dataset_freiburg2_360_hemisphere";
    "rgbd_dataset_freiburg2_360_kidnap";
    "rgbd_dataset_freiburg2_desk";
    "rgbd_dataset_freiburg2_large_no_loop";
    "rgbd_dataset_freiburg2_large_with_loop";
    "rgbd_dataset_freiburg3_long_office_household";
    "rgbd_dataset_freiburg2_pioneer_360";
    "rgbd_dataset_freiburg2_pioneer_slam";
    "rgbd_dataset_freiburg2_pioneer_slam2";
    "rgbd_dataset_freiburg2_pioneer_slam3";
    "rgbd_dataset_freiburg3_nostructure_notexture_far";
    "rgbd_dataset_freiburg3_nostructure_notexture_near_withloop";
    "rgbd_dataset_freiburg3_nostructure_texture_far";
    "rgbd_dataset_freiburg3_nostructure_texture_near_withloop";
    "rgbd_dataset_freiburg3_structure_notexture_far";
    "rgbd_dataset_freiburg3_structure_notexture_near";
    "rgbd_dataset_freiburg3_structure_texture_far";
    "rgbd_dataset_freiburg3_structure_texture_near";
    "rgbd_dataset_freiburg2_desk_with_person";
    "rgbd_dataset_freiburg3_sitting_static";
    "rgbd_dataset_freiburg3_sitting_xyz";
    "rgbd_dataset_freiburg3_sitting_halfsphere";
    "rgbd_dataset_freiburg3_sitting_rpy";
    "rgbd_dataset_freiburg3_walking_static";
    "rgbd_dataset_freiburg3_walking_xyz";
    "rgbd_dataset_freiburg3_walking_halfsphere";
    "rgbd_dataset_freiburg3_walking_rpy";
    "rgbd_dataset_freiburg1_plant";
    "rgbd_dataset_freiburg1_teddy";
    "rgbd_dataset_freiburg2_coke";
    "rgbd_dataset_freiburg2_dishes";
    "rgbd_dataset_freiburg2_flowerbouquet";
    "rgbd_dataset_freiburg2_flowerbouquet_brownbackground";
    "rgbd_dataset_freiburg2_metallic_sphere";
    "rgbd_dataset_freiburg2_metallic_sphere2";
    "rgbd_dataset_freiburg3_cabinet";
    "rgbd_dataset_freiburg3_large_cabinet";
    "rgbd_dataset_freiburg3_teddy"
  ].

(** The folders that the search of [find_files] may visit from
    [base_root]: the base itself and, under a visited folder, every
    directory entry whose name is not excluded. *)
Inductive searchable (fs : FileSystem) (base_root : string) : string → Prop :=
| searchable_base : searchable fs base_root base_root
| searchable_entry (parent name : string) (entries : list (string * bool)) :
    searchable fs base_root parent →
    scandir fs parent = Some entries →
    (name, true) ∈ entries →
    name ∉ excluded_folders →
    searchable fs base_root (os_path_join parent name).

(** One entry of a directory listing in [find_roots]: a directory with the
    name of a dataset is handed to [find_files] (a [FileNotFoundError] is
    caught and the entry skipped), any other directory is searched later. *)
Definition find_roots_entry (fs : FileSystem) (fuel : nat)
    (candidate_root : string)
    (st : outcome (gset string * gmap string string)) (entry : string * bool)
  : outcome (gset string * gmap string string) :=
  match st with
  | Return (to_search, actual_roots) =>
      if entry.2 then
        let dir_name := entry.1 in
        if bool_decide (dir_name ∈ dataset_names) then
          match find_files fs fuel (os_path_join candidate_root dir_name) with
          | Return actual_root =>
              Return (to_search, <[ dir_name := actual_root.1.1.1 ]> actual_roots)
          | Raise FileNotFoundError => Return (to_search, actual_roots)
          | Raise e => Raise e
          | OutOfFuel => OutOfFuel
          end
        else
          Return (to_search ∪ {[ os_path_join candidate_root dir_name ]},
                  actual_roots)
      else st
  | _ => st
  end.

Fixpoint find_roots_loop (fs : FileSystem) (fuel : nat)
    (to_search : gset string) (actual_roots : gmap string string)
  : outcome (gmap string string) :=
  match fuel with
  | O => OutOfFuel
  | S fuel =>
      match elements to_search with
      | [] => Return actual_roots
      | candidate_root :: _ =>
          let to_search := to_search ∖ {[ candidate_root ]} in
          match scandir fs candidate_root with
          | None => Raise OSError
          | Some entries =>
              match foldl (find_roots_entry fs fuel candidate_root)
                      (Return (to_search, actual_roots)) entries with
              | Return (to_search, actual_roots) =>
                  find_roots_loop fs fuel to_search actual_roots
              | Raise e => Raise e
              | OutOfFuel => OutOfFuel
              end
          end
      end
  end.

Definition find_roots (fs : FileSystem) (fuel : nat) (root : string)
  : outcome (gmap string string) :=
  find_roots_loop fs fuel {[ root ]} ∅.

(** A download folder with two dataset folders, one of them incomplete,
    and a folder of something else. *)
Definition demo_downloads : FileSystem :=
  {| isfile := λ p,
       bool_decide (p ∈ [ "tum/rgbd_dataset_freiburg1_xyz/rgb.txt";
                          "tum/rgbd_dataset_freiburg1_xyz/depth.txt";
                          "tum/rgbd_dataset_freiburg1_xyz/groundtruth.txt";
                          "tum/rgbd_dataset_freiburg2_desk/rgb.txt" ]);
     isdir := λ p,
       bool_decide (p ∈ [ "tum"; "tum/rgbd_dataset_freiburg1_xyz";
                          "tum/rgbd_dataset_freiburg2_desk"; "tum/papers" ]);
     scandir := λ p,
       if bool_decide (p = "tum")
       then Some [ ("rgbd_dataset_freiburg1_xyz", true);
                   ("rgbd_dataset_freiburg2_desk", true);
                   ("papers", true); ("notes.txt", false) ]
       else if bool_decide (p = "tum/rgbd_dataset_freiburg1_xyz")
       then Some [ ("rgb.txt", false); ("depth.txt", false);
                   ("groundtruth.txt", false) ]
       else if bool_decide (p = "tum/rgbd_dataset_freiburg2_desk")
       then Some [ ("rgb.txt", false) ]
       else if bool_decide (p = "tum/papers")
       then Some []
       else None |}.

End tum_manager.

(** What [find_roots] promises of an entry of its result: the key is the
    name of a dataset, and the value is a folder reached from a folder of
    that name that holds the three files of a sequence. *)
Definition dataset_root (fs : FileSystem) (name root : string) : Prop :=
  name ∈ dataset_names
  ∧ (∃ parent, searchable fs (os_path_join parent name) root)
  ∧ isfile fs (os_path_join root "rgb.txt") = true
  ∧ isfile fs (os_path_join root "depth.txt") = true
  ∧ isfile fs (os_path_join root "groundtruth.txt") = true.

Definition good_roots (fs : FileSystem) (actual_roots : gmap string string)
  : Prop :=
  ∀ name root, actual_roots !! name = Some root → dataset_root fs name root.

(** ** The columns of a frame error, and [make_frame_error_result] *)

Section frame_error_columns.
Context {Value : Type}.
Local Open Scope string_scope.

(** [FrameError.get_columns] *)
Definition frame_error_get_columns (self : FrameError (Value := Value))
  : gset string :=
  dom (column_values self) ∪ dom (system_properties self)
  ∪ dom (image_properties self).

(** [FrameError.get_properties(columns=None, other_properties=None)], with
    its two defaults *)
Definition frame_error_get_properties (self : FrameError (Value := Value))
    (columns : option (gset string))
    (other_properties : option (gmap string Value)) : gmap string Value :=
  let other_properties := default ∅ other_properties in
  let columns := default (frame_error_get_columns self) columns in
  get_properties self columns other_properties.

(** All the frame errors of a result, trial after trial *)
Definition all_frame_errors (errors : list (TrialErrors (Value := Value)))
  : list FrameError :=
  trial_errors ← errors; frame_errors trial_errors.

(** [make_frame_error_result]. A trial result is represented by what the
    function reads of it, the properties of its image source
    ([trial_results[0].image_source.get_properties()]); the properties of
    the metric are those that [metric.get_properties()] returns; the keys
    of both are strings. Indexing an empty list of trial results raises
    [IndexError], here [None]. [json_value] is a parameter. *)
Definition make_frame_error_result (json_value : Value → Value)
    (metric_properties : gmap string Value)
    (trial_results : list (gmap string Value))
    (errors : list (TrialErrors (Value := Value)))
  : option (FrameErrorResult (Value := Value)) :=
  image_source_properties ← trial_results !! 0%nat;
  let frame_error_columns :=
    elements (⋃ (frame_error_get_columns <$> all_frame_errors errors)) in
  Some {| errors := errors;
          image_source_properties := json_value <$> image_source_properties;
          metric_properties := json_value <$> metric_properties;
          frame_columns := frame_error_columns |}.

End frame_error_columns.

(** Sample values: integers, and aggregates of integers kept as terms. *)
Inductive demo_value : Type :=
| Num (n : Z)
| Agg (func : np_func) (data : list Z)
| NaN.

Definition demo_np (func : np_func) (data : list demo_value) : demo_value :=
  Agg func (omap (λ v, match v with Num n => Some n | _ => None end) data).

Definition demo_frame_error : FrameError :=
  {| column_values := {[ "timestamp"%string := Num 3 ]};
     system_properties := {[ "seed"%string := Num 7 ]};
     image_properties := ∅ |}.

Definition demo_trial_errors : TrialErrors :=
  {| frame_errors := [demo_frame_error];
     frames_lost := [Num 2; Num 5];
     frames_found := [];
     times_lost := [];
     times_found := [];
     distances_lost := [];
     distances_found := [] |}.

(** ** The camera of a TUM sequence

    [get_camera_intrinsics] of [dataset/tum/tum_loader.py]. Paths are
    strings of ASCII characters: [lower] maps the letters [A] to [Z] to
    small letters and leaves every other character as it is. An argument
    that the source does not pass to [CameraIntrinsics] is [None]. *)

Module CameraIntrinsics.
Record t : Type := mk {
  width : Z;
  height : Z;
  fx : R;
  fy : R;
  cx : R;
  cy : R;
  k1 : option R;
  k2 : option R;
  k3 : option R;
  p1 : option R;
  p2 : option R
}.
End CameraIntrinsics.

Section tum_intrinsics.
Local Open Scope string_scope.

Definition lower_ascii (c : ascii) : ascii :=
  let n := nat_of_ascii c in
  if (65 <=? n)%nat && (n <=? 90)%nat then ascii_of_nat (n + 32) else c.

(** [str.lower()] *)
Fixpoint lower (s : string) : string :=
  match s with
  | EmptyString => EmptyString
  | String c s => String (lower_ascii c) (lower s)
  end.

(** [sub in s] *)
Fixpoint contains (sub s : string) : bool :=
  String.prefix sub s
  || match s with
     | EmptyString => false
     | String _ s => contains sub s
     end.

Definition freiburg1_intrinsics : CameraIntrinsics.t :=
  CameraIntrinsics.mk 640 480 517.3%R 516.5%R 318.6%R 255.3%R
    (Some 0.2624%R) (Some (-0.9531)%R) (Some 1.1633%R)
    (Some (-0.0054)%R) (Some 0.0026%R).

Definition freiburg2_intrinsics : CameraIntrinsics.t :=
  CameraIntrinsics.mk 640 480 580.8%R 581.8%R 308.8%R 253.0%R
    (Some (-0.2297)%R) (Some 1.4766%R) (Some (-3.4194)%R)
    (Some 0.0005%R) (Some (-0.0075)%R).

Definition freiburg3_intrinsics : CameraIntrinsics.t :=
  CameraIntrinsics.mk 640 480 535.4%R 539.2%R 320.1%R 247.6%R
    None None None None None.

(** The ROS default parameters *)
Definition default_intrinsics : CameraIntrinsics.t :=
  CameraIntrinsics.mk 640 480 525.0%R 525.0%R 319.5%R 239.5%R
    None None None None None.

Definition get_camera_intrinsics (folder_path : string) : CameraIntrinsics.t :=
  let folder_path := lower folder_path in
  if contains "freiburg1" folder_path then freiburg1_intrinsics
  else if contains "freiburg2" folder_path then freiburg2_intrinsics
  else if contains "freiburg3" folder_path then freiburg3_intrinsics
  else default_intrinsics.

End tum_intrinsics.

(** ** The metadata of a EuRoC import

    The first and third step of [import_dataset] of
    [dataset/euroc/euroc_loader.py], from the check of the folder to the
    association. [read_image_filenames] and [read_trajectory] are given by
    the map they read from the file at a path. The function returns [None]
    when the folder or one of its five files is missing (inner [None]); a
    [KeyError] of the association is the outer [None]. The calibration and
    the rectification, which lie between, do not touch the three maps. *)

Section euroc_import.
Context {V : Type}.
Variable associate : gmap Z V → gmap Z V → Z → Z → list (Z * Z).
Variable read_image_filenames : string → gmap Z V.
Variable read_trajectory : string → gmap Z V.
Local Open Scope string_scope.

Definition euroc_import_metadata (fs : FileSystem) (root_folder : string)
  : option (option (list (row V))) :=
  if negb (isdir fs root_folder) then Some None
  else
    let left_rgb_path :=
      os_path_join (os_path_join root_folder "cam0") "data.csv" in
    let left_camera_intrinsics_path :=
      os_path_join (os_path_join root_folder "cam0") "sensor.yaml" in
    let right_rgb_path :=
      os_path_join (os_path_join root_folder "cam1") "data.csv" in
    let right_camera_intrinsics_path :=
      os_path_join (os_path_join root_folder "cam1") "sensor.yaml" in
    let trajectory_path :=
      os_path_join (os_path_join root_folder "state_groundtruth_estimate0")
        "data.csv" in
    if negb (isfile fs left_rgb_path)
       || negb (isfile fs left_camera_intrinsics_path)
       || negb (isfile fs right_rgb_path)
       || negb (isfile fs right_camera_intrinsics_path)
       || negb (isfile fs trajectory_path)
    then Some None
    else
      let left_image_files := read_image_filenames left_rgb_path in
      let right_image_files := read_image_filenames left_rgb_path in
      let trajectory := read_trajectory trajectory_path in
      all_metadata ←
        associate_data associate 3 left_image_files
          [right_image_files; trajectory];
      Some (Some all_metadata).

End euroc_import.

(** An extracted [mav0] folder, and readers that find the sample series
    in the files of the two cameras and of the ground truth. *)
Definition demo_mav0 : FileSystem :=
  {| isfile := λ p,
       bool_decide (p ∈ [ "mav0/cam0/data.csv"; "mav0/cam0/sensor.yaml";
                          "mav0/cam1/data.csv"; "mav0/cam1/sensor.yaml";
                          "mav0/state_groundtruth_estimate0/data.csv" ]%string);
     isdir := λ p,
       bool_decide (p ∈ [ "mav0"; "mav0/cam0"; "mav0/cam1";
                          "mav0/state_groundtruth_estimate0" ]%string);
     scandir := λ p, None |}.

Definition demo_read_image_filenames (path : string) : gmap Z Z :=
  if bool_decide (path = "mav0/cam0/data.csv"%string) then demo_root
  else if bool_decide (path = "mav0/cam1/data.csv"%string) then demo_same
  else ∅.

Definition demo_read_trajectory (path : string) : gmap Z Z :=
  if bool_decide (path = "mav0/state_groundtruth_estimate0/data.csv"%string)
  then demo_far else ∅.

(** * Properties *)

(** ** Sorting rows *)

Section sorting_facts.
Context {V : Type}.

Lemma StronglySorted_le_NoDup_lt (l : list Z) :
  StronglySorted Z.le l → NoDup l → StronglySorted Z.lt l.
Proof.
  induction 1 as [|k l Hs IH Hall]; intros Hnd; [constructor|].
  apply NoDup_cons in Hnd as [Hk Hnd].
  constructor; [by apply IH|].
  rewrite Forall_forall in Hall |- *.
  intros j Hj. specialize (Hall j Hj).
  assert (k ≠ j) by (intros ->; done). lia.
Qed.

Lemma StronglySorted_NoDup_lt (l : list Z) :
  StronglySorted Z.lt l → NoDup l.
Proof.
  induction 1 as [|k l Hs IH Hall]; constructor; [|done].
  intros Hk. rewrite Forall_forall in Hall. specialize (Hall k Hk). lia.
Qed.

Lemma sorted_Permutation (rows : list (row V)) : sorted rows ≡ₚ rows.
Proof. apply merge_sort_Permutation. Qed.

Lemma sorted_keys_ascending (rows : list (row V)) :
  NoDup rows.*1 → StronglySorted Z.lt (sorted rows).*1.
Proof.
  intros Hnd. apply StronglySorted_le_NoDup_lt.
  - apply (StronglySorted_fmap _ row_le); [by intros r1 r2|].
    apply StronglySorted_merge_sort; apply _.
  - by rewrite sorted_Permutation.
Qed.

End sorting_facts.

(** ** Rows built by key lookup *)

Section rows_by_lookup.
Context {V : Type}.
Implicit Types (root : gmap Z V) (maps : list (gmap Z V)) (keys : gset Z).

Lemma sorted_is_table keys maps (rows : list (row V)) :
  rows.*1 ≡ₚ elements keys →
  Forall (row_payloads maps) rows →
  is_table keys maps (sorted rows).
Proof.
  intros Hperm Hrows.
  assert (NoDup rows.*1) as Hnd by (rewrite Hperm; apply NoDup_elements).
  repeat split.
  - by apply sorted_keys_ascending.
  - rewrite sorted_Permutation, Hperm. apply elem_of_elements.
  - rewrite sorted_Permutation, Hperm. apply elem_of_elements.
  - rewrite sorted_Permutation, <- (length_fmap fst rows), Hperm. done.
  - by rewrite sorted_Permutation.
Qed.

Lemma make_row_Some root maps k :
  k ∈ dom root → Forall (λ m : gmap Z V, k ∈ dom m) maps →
  ∃ r, make_row root maps k = Some r ∧ r.1 = k ∧ row_payloads (root :: maps) r.
Proof.
  intros [v Hv]%elem_of_dom Hmaps. unfold make_row. rewrite Hv. simpl.
  assert (∃ vs, mapM (λ m : gmap Z V, m !! k) maps = Some vs) as [vs Hvs].
  { apply (mapM_is_Some_2 (λ m : gmap Z V, m !! k)).
    eapply Forall_impl; [exact Hmaps|]. intros m Hm. simpl.
    by apply elem_of_dom. }
  rewrite Hvs. simpl. eexists. split; [done|]. split; [done|].
  constructor; [done|]. by apply mapM_Some_1 in Hvs.
Qed.

Lemma mapM_make_row root maps (l : list Z) :
  Forall (λ k, k ∈ dom root ∧ Forall (λ m : gmap Z V, k ∈ dom m) maps) l →
  ∃ rows, mapM (make_row root maps) l = Some rows
    ∧ rows.*1 = l ∧ Forall (row_payloads (root :: maps)) rows.
Proof.
  induction 1 as [|k l [Hk Hmaps] _ (rows & Hrows & Hkeys & Hall)].
  - exists []. by repeat split.
  - destruct (make_row_Some root maps k Hk Hmaps) as (r & Hr & Hr1 & Hr2).
    exists (r :: rows). cbn. rewrite Hr. cbn.
    change (mapM (make_row root maps) l) with (mapM (make_row root maps) l).
    rewrite Hrows. cbn. repeat split; [by rewrite Hr1, Hkeys|by constructor].
Qed.

Lemma lookup_rows_is_table root maps keys :
  keys ⊆ dom root → Forall (λ m : gmap Z V, keys ⊆ dom m) maps →
  ∃ rows,
    (rows0 ← mapM (make_row root maps) (elements keys); Some (sorted rows0))
      = Some rows
    ∧ is_table keys (root :: maps) rows.
Proof.
  intros Hroot Hmaps.
  destruct (mapM_make_row root maps (elements keys)) as (rows0 & H0 & Hk & Hp).
  { apply Forall_forall. intros k Hk%elem_of_elements. split; [set_solver|].
    eapply Forall_impl; [exact Hmaps|]. intros m Hm. simpl in *. set_solver. }
  exists (sorted rows0). rewrite H0. split; [done|].
  apply sorted_is_table; [by rewrite Hk|done].
Qed.

End rows_by_lookup.

(** ** The two paths of [associate_data] *)

Section associate_data_props.
Context {V : Type}.
Variable associate : gmap Z V → gmap Z V → Z → Z → list (Z * Z).
Variable max_difference : Z.
Implicit Types (root other : gmap Z V) (args : list (gmap Z V)).

Lemma all_same_Forall root args :
  all_same (dom root) args = true ↔ Forall (λ other, dom other = dom root) args.
Proof.
  unfold all_same. rewrite forallb_forall, Forall_forall.
  setoid_rewrite bool_decide_eq_true. setoid_rewrite list_elem_of_In. done.
Qed.

Lemma items_keys root :
  ((λ kv : Z * V, (kv.1, [kv.2])) <$> map_to_list root).*1
    ≡ₚ elements (dom root).
Proof.
  rewrite <- list_fmap_compose.
  apply NoDup_Permutation.
  - apply (NoDup_fst_map_to_list root).
  - apply NoDup_elements.
  - intros k. rewrite elem_of_elements, elem_of_dom, list_elem_of_fmap. split.
    + intros ([k' v] & -> & Hkv). apply elem_of_map_to_list in Hkv. by exists v.
    + intros [v Hv]. exists (k, v). split; [done|]. by apply elem_of_map_to_list.
Qed.

Lemma items_payloads root :
  Forall (row_payloads [root])
    ((λ kv : Z * V, (kv.1, [kv.2])) <$> map_to_list root).
Proof.
  apply Forall_fmap, Forall_forall. intros [k v] Hkv.
  apply elem_of_map_to_list in Hkv. unfold row_payloads. simpl.
  by repeat constructor.
Qed.

Lemma associate_data_same root args :
  Forall (λ other, dom other = dom root) args →
  ∃ rows, associate_data associate max_difference root args = Some rows
    ∧ is_table (dom root) (root :: args) rows.
Proof.
  intros Hsame. unfold associate_data.
  destruct args as [|other args].
  - simpl. eexists. split; [done|].
    apply sorted_is_table; [apply items_keys|apply items_payloads].
  - rewrite bool_decide_eq_false_2 by (simpl; lia).
    cbv zeta. rewrite (proj2 (all_same_Forall root (other :: args)) Hsame).
    apply lookup_rows_is_table; [done|].
    eapply Forall_impl; [exact Hsame|]. by intros m ->.
Qed.

Lemma rekey_fold_Some other (matches : list (Z * Z)) (acc : gmap Z V) :
  (∀ a b, (a, b) ∈ matches → b ∈ dom other) →
  ∃ rekeyed,
    foldl (λ (acc : option (gmap Z V)) (m : Z * Z),
             rekeyed ← acc; v ← other !! m.2; Some (<[m.1 := v]> rekeyed))
          (Some acc) matches = Some rekeyed
    ∧ dom rekeyed = dom acc ∪ list_to_set matches.*1.
Proof.
  revert acc. induction matches as [|[a b] matches IH]; intros acc Hin.
  - exists acc. split; [done|]. set_solver.
  - assert (b ∈ dom other) as [v Hv]%elem_of_dom by (apply (Hin a); left).
    cbn. rewrite Hv. cbn.
    destruct (IH (<[a := v]> acc)) as (rekeyed & Hfold & Hdom).
    { intros a' b' Hin'. apply (Hin a'). by right. }
    exists rekeyed. split; [done|]. rewrite Hdom, dom_insert_L. set_solver.
Qed.

Lemma rekey_Some other (matches : list (Z * Z)) :
  (∀ a b, (a, b) ∈ matches → b ∈ dom other) →
  ∃ rekeyed, rekey other matches = Some rekeyed
    ∧ dom rekeyed = list_to_set matches.*1.
Proof.
  intros Hin. destruct (rekey_fold_Some other matches ∅ Hin) as (m & Hm & Hdom).
  exists m. split; [done|]. rewrite Hdom, dom_empty_L. set_solver.
Qed.

Lemma rekey_loop root args (keys : gset Z) (rekeyed_maps : list (gmap Z V)) :
  matches_in_range associate max_difference root args →
  Forall (λ m : gmap Z V, keys ⊆ dom m) rekeyed_maps →
  ∃ keys' rekeyed_maps',
    foldl (rekey_step associate max_difference root)
          (Some (keys, rekeyed_maps)) args = Some (keys', rekeyed_maps')
    ∧ (∀ k, k ∈ keys' ↔
         k ∈ keys ∧
         ∀ other, other ∈ args →
           k ∈ matched_keys associate max_difference root other)
    ∧ Forall (λ m : gmap Z V, keys' ⊆ dom m) rekeyed_maps'.
Proof.
  revert keys rekeyed_maps.
  induction args as [|other args IH]; intros keys rekeyed_maps Hrange Hsub.
  - exists keys, rekeyed_maps. split; [done|]. split; [|done].
    intros k. split; [|tauto]. intros Hk. split; [done|].
    intros other Hother. by apply elem_of_nil in Hother.
  - destruct (rekey_Some other (associate root other 0 max_difference))
      as (rekeyed & Hrekey & Hdom).
    { intros a b. apply Hrange. left. }
    cbn. rewrite Hrekey. cbn.
    destruct (IH (keys ∩ dom rekeyed) (rekeyed_maps ++ [rekeyed]))
      as (keys' & maps' & Hfold & Hkeys & Hmaps).
    { intros o a b Ho. apply Hrange. by right. }
    { apply Forall_app. split.
      - eapply Forall_impl; [exact Hsub|]. intros m Hm. simpl in *. set_solver.
      - apply Forall_singleton. set_solver. }
    exists keys', maps'. split; [done|]. split; [|done].
    intros k. rewrite Hkeys, elem_of_intersection, Hdom. unfold matched_keys.
    split.
    + intros [[Hk Hm] Hrest]. split; [done|].
      intros o [->|Ho]%elem_of_cons; [done|by apply Hrest].
    + intros [Hk Hall]. split; [split; [done|]|].
      * apply Hall. left.
      * intros o Ho. apply Hall. by right.
Qed.

Lemma associate_data_matched root args :
  ¬ Forall (λ other, dom other = dom root) args →
  matches_in_range associate max_difference root args →
  ∃ rows (keys : gset Z) (rekeyed_maps : list (gmap Z V)),
    associate_data associate max_difference root args = Some rows
    ∧ is_table keys (root :: rekeyed_maps) rows
    ∧ (∀ k, k ∈ keys ↔
         k ∈ dom root ∧
         ∀ other, other ∈ args →
           k ∈ matched_keys associate max_difference root other).
Proof.
  intros Hdiff Hrange. unfold associate_data.
  destruct args as [|other args]; [by destruct Hdiff|].
  rewrite bool_decide_eq_false_2 by (simpl; lia). cbv zeta.
  destruct (all_same (dom root) (other :: args)) eqn:Hsame.
  { by apply all_same_Forall in Hsame. }
  destruct (rekey_loop root (other :: args) (dom root) [] Hrange)
    as (keys & maps & Hfold & Hkeys & Hmaps); [done|].
  rewrite Hfold. cbn.
  destruct (lookup_rows_is_table root maps keys) as (rows & Hrows & Htable);
    [|done|].
  { intros k Hk. by apply Hkeys in Hk as [? _]. }
  exists rows, keys, maps. split; [done|]. split; [done|]. exact Hkeys.
Qed.

End associate_data_props.

(** ** The greedy matching stays within the two series *)

Section greedy_props.
Context {V : Type}.

Lemma consume_candidates (candidates : list candidate)
    (claimed_first claimed_second : gset Z) (a b : Z) :
  (a, b) ∈ consume candidates claimed_first claimed_second →
  ∃ d, (d, (a, b)) ∈ candidates.
Proof.
  revert claimed_first claimed_second.
  induction candidates as [|[d [a' b']] rest IH]; intros c1 c2; simpl.
  - by intros ?%elem_of_nil.
  - case_bool_decide.
    + intros [Heq|Hin]%elem_of_cons.
      * injection Heq as -> ->. exists d. left.
      * destruct (IH _ _ Hin) as [d' Hd']. exists d'. by right.
    + intros Hin. destruct (IH _ _ Hin) as [d' Hd']. exists d'. by right.
Qed.

Lemma potential_matches_keys (max_difference : Z)
    (first_keys second_keys : list Z) (d a b : Z) :
  (d, (a, b)) ∈ potential_matches max_difference first_keys second_keys →
  a ∈ first_keys ∧ b ∈ second_keys ∧ d = Z.abs (a - b)
  ∧ (Z.abs (a - b) ≤ max_difference)%Z.
Proof.
  unfold potential_matches.
  intros (a' & Hb & Ha)%list_elem_of_bind.
  apply list_elem_of_bind in Hb as (b' & Hc & Hb).
  case_bool_decide; [|by apply elem_of_nil in Hc].
  apply list_elem_of_singleton in Hc. injection Hc as -> -> ->. done.
Qed.

Lemma greedy_associate_in_range (first second : gmap Z V)
    (offset max_difference a b : Z) :
  (a, b) ∈ greedy_associate first second offset max_difference →
  a ∈ dom first ∧ b ∈ dom second ∧ (Z.abs (a - b) ≤ max_difference)%Z.
Proof.
  unfold greedy_associate. intros [d Hd]%consume_candidates.
  rewrite merge_sort_Permutation in Hd.
  apply potential_matches_keys in Hd as (Ha & Hb & _ & Hdiff).
  by rewrite !elem_of_elements in Ha, Hb.
Qed.

End greedy_props.

(** ** [associate_data]: the fast path and the general path *)

Example associate_data_demo_same :
  associate_data greedy_associate 1 demo_root [demo_same]
  = Some [(1, [10; 11]); (5, [50; 51]); (9, [90; 91])]%Z.
Proof. vm_compute. reflexivity. Qed.

Example associate_data_demo_alone :
  associate_data greedy_associate 1 demo_root []
  = Some [(1, [10]); (5, [50]); (9, [90])]%Z.
Proof. vm_compute. reflexivity. Qed.

Example associate_data_demo_near :
  associate_data greedy_associate 1 demo_root [demo_near; demo_far]
  = Some [(1, [10; 12; 23]); (5, [50; 62; 53])]%Z.
Proof. vm_compute. reflexivity. Qed.

Example associate_data_demo_none :
  associate_data greedy_associate 1 demo_root [demo_near; demo_none] = Some [].
Proof. vm_compute. reflexivity. Qed.

Lemma associate_data_same_any {V : Type}
    (associate associate' : gmap Z V → gmap Z V → Z → Z → list (Z * Z))
    (max_difference max_difference' : Z)
    (root : gmap Z V) (args : list (gmap Z V)) :
  Forall (λ other : gmap Z V, dom other = dom root) args →
  associate_data associate max_difference root args
  = associate_data associate' max_difference' root args.
Proof.
  intros Hsame. unfold associate_data. case_bool_decide; [done|].
  cbv zeta. by rewrite (proj2 (all_same_Forall root args) Hsame).
Qed.

(** C7. When every series has exactly the key set of the reference series
    (the list of secondary series may be empty), [associate_data] returns
    one row per key, [size (dom root)] rows in all, in ascending key order;
    the row of key [k] holds, after [k], the payload of [k] in the
    reference series and then in each secondary series, in argument order.
    The rows come from direct look-up: they are the same whatever
    [associate] and whatever tolerance are supplied. *)
Theorem associate_data_same_key_sets {V : Type}
    (associate : gmap Z V → gmap Z V → Z → Z → list (Z * Z))
    (max_difference : Z) (root : gmap Z V) (args : list (gmap Z V)) :
  Forall (λ other : gmap Z V, dom other = dom root) args →
  ∃ rows : list (row V),
    associate_data associate max_difference root args = Some rows
    ∧ (∀ associate' max_difference',
         associate_data associate' max_difference' root args = Some rows)
    ∧ length rows = size (dom root)
    ∧ StronglySorted Z.lt rows.*1
    ∧ (∀ k, k ∈ rows.*1 ↔ k ∈ dom root)
    ∧ Forall (λ r : row V,
                Forall2 (λ (m : gmap Z V) (x : V), m !! r.1 = Some x)
                        (root :: args) r.2) rows.
Proof.
  intros Hsame.
  destruct (associate_data_same associate max_difference root args Hsame)
    as (rows & Hrows & Hsorted & Hkeys & Hlen & Hpay).
  exists rows. split; [done|]. split; [|done].
  intros associate' max_difference'. rewrite <- Hrows.
  by apply associate_data_same_any.
Qed.

Lemma associate_data_same_key_sets_witness :
  Forall (λ other : gmap Z Z, dom other = dom demo_root) [demo_same]
  ∧ ∃ rows : list (row Z),
      associate_data greedy_associate 1 demo_root [demo_same] = Some rows
      ∧ (∀ associate' max_difference',
           associate_data associate' max_difference' demo_root [demo_same]
           = Some rows)
      ∧ length rows = size (dom demo_root)
      ∧ StronglySorted Z.lt rows.*1
      ∧ (∀ k, k ∈ rows.*1 ↔ k ∈ dom demo_root)
      ∧ Forall (λ r : row Z,
                  Forall2 (λ (m : gmap Z Z) (x : Z), m !! r.1 = Some x)
                          (demo_root :: [demo_same]) r.2) rows.
Proof.
  assert (Forall (λ other : gmap Z Z, dom other = dom demo_root) [demo_same])
    as Hsame by (repeat constructor; vm_compute; reflexivity).
  split; [exact Hsame|].
  exact (associate_data_same_key_sets greedy_associate 1 demo_root [demo_same] Hsame).
Defined.

(** C1. On the general path (the secondary series do not all have the key
    set of the reference series, so there is at least one of them), and
    provided [associate] only reports secondary keys that the secondary
    series has, [associate_data] returns exactly one row per reference key
    that [associate] matched in every secondary series; a secondary series
    without any match makes the result the empty list. *)
Theorem associate_data_intersection {V : Type}
    (associate : gmap Z V → gmap Z V → Z → Z → list (Z * Z))
    (max_difference : Z) (root : gmap Z V) (args : list (gmap Z V)) :
  ¬ Forall (λ other : gmap Z V, dom other = dom root) args →
  (∀ other a b, other ∈ args →
     (a, b) ∈ associate root other 0%Z max_difference → b ∈ dom other) →
  ∃ rows : list (row V),
    associate_data associate max_difference root args = Some rows
    ∧ NoDup rows.*1
    ∧ (∀ k, k ∈ rows.*1 ↔
         k ∈ dom root ∧
         ∀ other, other ∈ args →
           k ∈ matched_keys associate max_difference root other)
    ∧ ((∃ other, other ∈ args ∧ associate root other 0%Z max_difference = [])
       → rows = []).
Proof.
  intros Hdiff Hrange.
  destruct (associate_data_matched associate max_difference root args
              Hdiff Hrange)
    as (rows & keys & maps & Hrows & (Hsorted & Hkeys & Hlen & Hpay) & Hmatched).
  exists rows. split; [done|]. split; [|split].
  - by apply StronglySorted_NoDup_lt.
  - intros k. by rewrite Hkeys, Hmatched.
  - intros (other & Hother & Hnone).
    destruct rows as [|r rows]; [done|]. exfalso.
    assert (r.1 ∈ keys) as Hr by (apply Hkeys; left).
    apply Hmatched in Hr as [_ Hr]. specialize (Hr other Hother).
    unfold matched_keys in Hr. rewrite Hnone in Hr. set_solver.
Qed.

Lemma associate_data_intersection_witness :
  ¬ Forall (λ other : gmap Z Z, dom other = dom demo_root) [demo_near; demo_none]
  ∧ ∃ rows : list (row Z),
      associate_data greedy_associate 1 demo_root [demo_near; demo_none]
      = Some rows
      ∧ NoDup rows.*1
      ∧ (∀ k, k ∈ rows.*1 ↔
           k ∈ dom demo_root ∧
           ∀ other, other ∈ [demo_near; demo_none] →
             k ∈ matched_keys greedy_associate 1 demo_root other)
      ∧ ((∃ other, other ∈ [demo_near; demo_none]
                   ∧ greedy_associate demo_root other 0%Z 1%Z = [])
         → rows = []).
Proof.
  assert (¬ Forall (λ other : gmap Z Z, dom other = dom demo_root)
              [demo_near; demo_none]) as Hdiff.
  { intros Hsame. apply Forall_cons in Hsame as [Hsame _].
    vm_compute in Hsame. discriminate Hsame. }
  split; [exact Hdiff|].
  apply (associate_data_intersection greedy_associate 1 demo_root
           [demo_near; demo_none] Hdiff).
  intros other a b _ Hin.
  exact (proj1 (proj2 (greedy_associate_in_range demo_root other 0 1 a b Hin))).
Defined.

(** ** Poses and pose errors *)

Section geometry_props.
Local Open Scope R_scope.

Lemma positive_true (r : R) : 0 < r → positive r = true.
Proof. intros Hr. unfold positive. by destruct (Rlt_dec 0 r). Qed.

Lemma positive_false (r : R) : ¬ 0 < r → positive r = false.
Proof. intros Hr. unfold positive. by destruct (Rlt_dec 0 r). Qed.

Lemma positive_spec (r : R) : positive r = true ↔ 0 < r.
Proof. unfold positive. destruct (Rlt_dec 0 r); split; (done || lra). Qed.

Lemma np_linalg_norm_nonneg (a : vec3) : 0 <= np_linalg_norm a.
Proof. apply sqrt_pos. Qed.

Lemma not_positive_norm (a : vec3) :
  positive (np_linalg_norm a) = false ↔ np_linalg_norm a = 0.
Proof.
  pose proof (np_linalg_norm_nonneg a) as Hn.
  unfold positive. destruct (Rlt_dec 0 (np_linalg_norm a)); split;
    (done || lra).
Qed.

Lemma vec_sub_diag (a : vec3) : vec_sub a a = (0, 0, 0).
Proof. destruct a as [[ax ay] az]. simpl. f_equal; [f_equal|]; lra. Qed.

Lemma np_linalg_norm_zero : np_linalg_norm (0, 0, 0) = 0.
Proof.
  unfold np_linalg_norm, np_dot.
  replace (0 * 0 + 0 * 0 + 0 * 0) with 0 by lra. apply sqrt_0.
Qed.

Lemma quat_normalise_unit (q : quat) : unit_quat q → quat_normalise q = q.
Proof.
  destruct q as [[[qw qx] qy] qz]. unfold unit_quat, quat_normalise.
  intros ->. rewrite sqrt_1.
  repeat (apply pair_equal_spec; split); lra.
Qed.

Lemma make_camera_pose_unit (tx ty tz qw qx qy qz : R) :
  unit_quat (qw, qx, qy, qz) →
  rotation_quat (make_camera_pose tx ty tz qw qx qy qz) = (qw, qz, - qx, - qy).
Proof.
  intros Hunit. unfold make_camera_pose. cbn [rotation_quat].
  apply quat_normalise_unit. unfold unit_quat in *. cbn in *. lra.
Qed.

Lemma acos_pos_lt (c : R) : 0 < c → 0 <= acos c < PI / 2.
Proof.
  intros Hc. split; [apply acos_bound|].
  rewrite acos_atan by done. apply atan_bound.
Qed.

Lemma acos_clamped (c : R) : 0 <= c <= 1 → 0 <= acos c <= PI / 2.
Proof.
  intros [Hc0 Hc1]. destruct (Req_dec c 0) as [->|Hne].
  - rewrite acos_0. pose proof PI_RGT_0. lra.
  - destruct (acos_pos_lt c); lra.
Qed.

Lemma acos_neg_gt (c : R) : c < 0 → PI / 2 < acos c.
Proof.
  intros Hc. replace c with (- (- c)) by lra. rewrite acos_opp.
  destruct (acos_pos_lt (- c)); lra.
Qed.

Lemma clamp_range (c : R) : 0 <= Rmin 1 (Rmax 0 c) <= 1.
Proof. unfold Rmin, Rmax. repeat destruct Rle_dec; lra. Qed.

Lemma clamp_neg (c : R) : c <= 0 → Rmin 1 (Rmax 0 c) = 0.
Proof. intros Hc. unfold Rmin, Rmax. repeat destruct Rle_dec; lra. Qed.

(** The direction is either absent, with a zero norm to blame, or the
    angle [error_direction], with both norms positive. *)
Lemma make_pose_error_direction (estimated_pose reference_pose : Transform) :
  let e := make_pose_error estimated_pose reference_pose in
  (PoseError.direction e = None
   ∧ (PoseError.length e = 0 ∨ np_linalg_norm (location reference_pose) = 0))
  ∨ (PoseError.direction e
       = Some (error_direction
                 (vec_sub (location estimated_pose) (location reference_pose))
                 (location reference_pose))
     ∧ 0 < PoseError.length e
     ∧ 0 < np_linalg_norm (location reference_pose)).
Proof.
  cbv zeta. unfold make_pose_error. cbn [PoseError.direction PoseError.length].
  set (len := np_linalg_norm
                (vec_sub (location estimated_pose) (location reference_pose))).
  set (rn := np_linalg_norm (location reference_pose)).
  destruct (positive len) eqn:Hlen.
  - destruct (positive rn) eqn:Hrn.
    + right. apply positive_spec in Hlen, Hrn. by repeat split.
    + left. split; [done|]. right. by apply not_positive_norm.
  - left. split; [done|]. left. by apply not_positive_norm.
Qed.

End geometry_props.

Section pose_claims.
Local Open Scope R_scope.

Lemma acos_nonneg_le (c : R) : 0 <= c → acos c <= PI / 2.
Proof.
  intros Hc. destruct (Rle_dec c 1) as [Hc1|Hc1].
  - by apply acos_clamped.
  - pose proof PI_RGT_0. unfold acos. repeat destruct Rle_dec; lra.
Qed.

Lemma quat_diff_same (q : quat) : unit_quat q → quat_diff q q = 0.
Proof.
  unfold unit_quat, quat_diff. intros ->.
  rewrite Rabs_R1. unfold Rmin. destruct Rle_dec; rewrite acos_1; lra.
Qed.

Lemma demo_ahead_norm : np_linalg_norm (location demo_ahead) = 1.
Proof.
  unfold np_linalg_norm, np_dot. simpl.
  replace (1 * 1 + - 0 * - 0 + - 0 * - 0) with 1 by lra. apply sqrt_1.
Qed.

Lemma demo_error_norm :
  np_linalg_norm (vec_sub (location demo_origin) (location demo_ahead)) = 1.
Proof.
  unfold np_linalg_norm, np_dot. simpl.
  replace ((0 - 1) * (0 - 1) + (- 0 - - 0) * (- 0 - - 0)
           + (- 0 - - 0) * (- 0 - - 0)) with 1 by lra.
  apply sqrt_1.
Qed.

Lemma demo_direction :
  PoseError.direction (make_pose_error demo_origin demo_ahead)
  = Some (error_direction
            (vec_sub (location demo_origin) (location demo_ahead))
            (location demo_ahead)).
Proof.
  destruct (make_pose_error_direction demo_origin demo_ahead)
    as [[_ [Hzero|Hzero]]|[Hdir _]]; [| |exact Hdir].
  - cbn [make_pose_error PoseError.length] in Hzero.
    rewrite demo_error_norm in Hzero. lra.
  - rewrite demo_ahead_norm in Hzero. lra.
Qed.

(** The pose one unit behind the reference pose has an error vector
    opposite to the reference location: the angle between them is [PI],
    and the direction reported is [PI / 2]. *)
Example make_pose_error_demo_obtuse :
  PoseError.direction (make_pose_error demo_origin demo_ahead) = Some (PI / 2)
  ∧ PoseError.length (make_pose_error demo_origin demo_ahead) = 1.
Proof.
  split; [|apply demo_error_norm].
  rewrite demo_direction. f_equal. unfold error_direction.
  rewrite demo_error_norm, demo_ahead_norm. simpl. unfold np_dot.
  rewrite clamp_neg; [apply acos_0|]. lra.
Qed.

(** C4. Both conversions into the canonical frame send a translation
    [(tx, ty, tz)] of the native frame to the location [(tz, -tx, -ty)]:
    [make_camera_pose] of the loaders, and [make_relative_pose] applied to
    a worker pose matrix whose translation column is [(tx, ty, tz)],
    whatever the rotation part. The matrix with translation
    [(10, -22.4, 13.2)] yields the location [(13.2, -10, 22.4)]. *)
Theorem pose_location_remap
    (mat2quat : mat3 → quat) (tx ty tz qw qx qy qz : R)
    (r00 r01 r02 r10 r11 r12 r20 r21 r22 : R) :
  location (make_camera_pose tx ty tz qw qx qy qz) = (tz, - tx, - ty)
  ∧ location (make_relative_pose mat2quat
                (mkPoseMatrix r00 r01 r02 tx r10 r11 r12 ty r20 r21 r22 tz))
    = (tz, - tx, - ty)
  ∧ location (make_relative_pose mat2quat test_frame_delta)
    = (13.2, -10, 22.4)
  ∧ location (make_camera_pose 10 (-22.4) 13.2 qw qx qy qz)
    = (13.2, -10, 22.4).
Proof.
  split; [done|]. split; [done|]. split.
  - cbn. repeat (apply pair_equal_spec; split); lra.
  - cbn. repeat (apply pair_equal_spec; split); lra.
Qed.

(** C5. The length of a pose error is the norm of the difference of the
    two locations. The direction is absent exactly when that norm, the
    length of the translation error, is zero or the location of the
    reference pose has norm zero; when it is present, it is the arccosine
    of the inner product of the unit error vector and the unit reference
    location, clamped to [[0, 1]]. *)
Theorem make_pose_error_direction_defined
    (estimated_pose reference_pose : Transform) :
  PoseError.length (make_pose_error estimated_pose reference_pose)
  = np_linalg_norm
      (vec_sub (location estimated_pose) (location reference_pose))
  ∧ (PoseError.direction (make_pose_error estimated_pose reference_pose) = None
     ↔ (np_linalg_norm
          (vec_sub (location estimated_pose) (location reference_pose)) = 0
        ∨ np_linalg_norm (location reference_pose) = 0))
  ∧ (PoseError.direction (make_pose_error estimated_pose reference_pose) = None
     ∨ PoseError.direction (make_pose_error estimated_pose reference_pose)
       = Some
           (acos
              (Rmin 1
                 (Rmax 0
                    (np_dot
                       (vec_div
                          (vec_sub (location estimated_pose)
                             (location reference_pose))
                          (np_linalg_norm
                             (vec_sub (location estimated_pose)
                                (location reference_pose))))
                       (vec_div (location reference_pose)
                          (np_linalg_norm (location reference_pose)))))))).
Proof.
  split; [reflexivity|].
  destruct (make_pose_error_direction estimated_pose reference_pose)
    as [[Hnone Hzero]|(Hsome & Hlen & Hnorm)].
  - split; [|by left]. split; [by intros _|by intros _].
  - split; [|by right]. rewrite Hsome. split; [done|].
    cbn [make_pose_error PoseError.length] in Hlen. intros [Hz|Hz]; lra.
Qed.

(** The estimate one unit behind a reference that is not at the origin
    has a translation error of length one and a direction. *)
Example make_pose_error_demo_defined :
  PoseError.length (make_pose_error demo_origin demo_ahead) = 1
  ∧ PoseError.direction (make_pose_error demo_origin demo_ahead) ≠ None.
Proof.
  split; [apply demo_error_norm|]. by rewrite demo_direction.
Qed.

(** C6. The error of a pose against itself: no translation error, length
    zero, rotation error zero and no direction. The orientation of a pose
    is a unit quaternion. *)
Theorem make_pose_error_same (p : Transform) :
  unit_quat (rotation_quat p) →
  PoseError.x (make_pose_error p p) = 0
  ∧ PoseError.y (make_pose_error p p) = 0
  ∧ PoseError.z (make_pose_error p p) = 0
  ∧ PoseError.length (make_pose_error p p) = 0
  ∧ PoseError.rot (make_pose_error p p) = 0
  ∧ PoseError.direction (make_pose_error p p) = None.
Proof.
  intros Hunit. unfold make_pose_error.
  cbn [PoseError.x PoseError.y PoseError.z PoseError.length
       PoseError.rot PoseError.direction].
  rewrite vec_sub_diag, np_linalg_norm_zero.
  rewrite (positive_false 0) by lra.
  repeat split; try done. by apply quat_diff_same.
Qed.

Lemma make_pose_error_same_witness :
  unit_quat (rotation_quat demo_ahead)
  ∧ PoseError.x (make_pose_error demo_ahead demo_ahead) = 0
  ∧ PoseError.y (make_pose_error demo_ahead demo_ahead) = 0
  ∧ PoseError.z (make_pose_error demo_ahead demo_ahead) = 0
  ∧ PoseError.length (make_pose_error demo_ahead demo_ahead) = 0
  ∧ PoseError.rot (make_pose_error demo_ahead demo_ahead) = 0
  ∧ PoseError.direction (make_pose_error demo_ahead demo_ahead) = None.
Proof.
  assert (unit_quat (rotation_quat demo_ahead)) as Hunit.
  { unfold demo_ahead. rewrite make_camera_pose_unit.
    - unfold unit_quat, quat_dot. lra.
    - unfold unit_quat, quat_dot. lra. }
  split; [exact Hunit|]. exact (make_pose_error_same demo_ahead Hunit).
Defined.

(** C9. A direction that is present lies between [0] and [PI / 2]; when
    the angle between the error vector and the reference location, the
    arccosine of the inner product of the two unit vectors, is obtuse, the
    direction reported is [PI / 2] and not that angle. *)
Theorem make_pose_error_direction_range
    (estimated_pose reference_pose : Transform) (d : R) :
  PoseError.direction (make_pose_error estimated_pose reference_pose) = Some d →
  0 <= d <= PI / 2
  ∧ (PI / 2
      < acos
          (np_dot
             (vec_div
                (vec_sub (location estimated_pose) (location reference_pose))
                (np_linalg_norm
                   (vec_sub (location estimated_pose)
                      (location reference_pose))))
             (vec_div (location reference_pose)
                (np_linalg_norm (location reference_pose))))
     → d = PI / 2).
Proof.
  intros Hd.
  destruct (make_pose_error_direction estimated_pose reference_pose)
    as [[Hnone _]|(Hsome & _ & _)]; [congruence|].
  rewrite Hsome in Hd. injection Hd as <-. unfold error_direction. cbv zeta.
  split; [apply acos_clamped, clamp_range|].
  intros Hobtuse. rewrite clamp_neg; [apply acos_0|].
  apply Rnot_lt_le. intros Hpos.
  apply Rlt_le, acos_nonneg_le in Hpos. lra.
Qed.

Lemma make_pose_error_direction_range_witness :
  PoseError.direction (make_pose_error demo_origin demo_ahead)
  = Some (error_direction
            (vec_sub (location demo_origin) (location demo_ahead))
            (location demo_ahead))
  ∧ 0 <= error_direction
           (vec_sub (location demo_origin) (location demo_ahead))
           (location demo_ahead) <= PI / 2.
Proof.
  split; [exact demo_direction|].
  exact (proj1 (make_pose_error_direction_range demo_origin demo_ahead _
                  demo_direction)).
Defined.

End pose_claims.

(** ** The files of a TUM dataset *)

Section tum_files_props.
Local Open Scope string_scope.

Example import_dataset_paths_demo :
  import_dataset_paths demo_fs 5 "data"
  = Return {| root_folder := "data/seq";
              rgb_path := "data/seq/rgb.txt";
              trajectory_path := "data/seq/depth.txt";
              depth_path := "data/seq/groundtruth.txt" |}.
Proof. vm_compute. reflexivity. Qed.

Example find_files_demo_missing :
  find_files demo_fs 5 "data/seq/rgb" = Raise FileNotFoundError.
Proof. vm_compute. reflexivity. Qed.

Lemma find_files_loop_order (fs : FileSystem) (fuel : nat)
    (to_search : gset string) (root p1 p2 p3 : string) :
  find_files_loop fs fuel to_search = Return (root, p1, p2, p3) →
  p1 = os_path_join root "rgb.txt"
  ∧ p2 = os_path_join root "depth.txt"
  ∧ p3 = os_path_join root "groundtruth.txt".
Proof.
  revert to_search. induction fuel as [|fuel IH]; intros to_search; simpl.
  - discriminate.
  - destruct (elements to_search) as [|candidate_root rest]; [discriminate|].
    destruct (isfile fs (os_path_join candidate_root "rgb.txt")
              && isfile fs (os_path_join candidate_root "groundtruth.txt")
              && isfile fs (os_path_join candidate_root "depth.txt")).
    + intros Hret. injection Hret as <- <- <- <-. done.
    + destruct (scandir fs candidate_root) as [entries|]; [|discriminate].
      apply IH.
Qed.

(** C10. [find_files] returns the root, then the path of [rgb.txt], of
    [depth.txt] and of [groundtruth.txt], in that order; [import_dataset]
    names the third component [trajectory_path] and the fourth
    [depth_path]. Whenever the import gets past step 1, the trajectory is
    read from [depth.txt] and the depth image file names are read from
    [groundtruth.txt], both in the folder that [find_files] settled on. *)
Theorem import_dataset_reads_swapped_files (fs : FileSystem) (fuel : nat)
    (folder : string) (paths : ImportPaths) :
  import_dataset_paths fs fuel folder = Return paths →
  find_files fs fuel folder
  = Return (root_folder paths,
            os_path_join (root_folder paths) "rgb.txt",
            os_path_join (root_folder paths) "depth.txt",
            os_path_join (root_folder paths) "groundtruth.txt")
  ∧ image_files_source paths = os_path_join (root_folder paths) "rgb.txt"
  ∧ trajectory_source paths = os_path_join (root_folder paths) "depth.txt"
  ∧ depth_files_source paths
    = os_path_join (root_folder paths) "groundtruth.txt".
Proof.
  unfold import_dataset_paths.
  destruct (isdir fs folder); simpl; [|discriminate].
  destruct (find_files fs fuel folder) as [[[[root p1] p2] p3]|e|] eqn:Hfind;
    [|discriminate..].
  intros Hret. injection Hret as <-. simpl.
  apply find_files_loop_order in Hfind as (-> & -> & ->). done.
Qed.

Lemma import_dataset_reads_swapped_files_witness :
  import_dataset_paths demo_fs 5 "data"
  = Return (mkImportPaths "data/seq" "data/seq/rgb.txt" "data/seq/depth.txt"
              "data/seq/groundtruth.txt")
  ∧ trajectory_source
      (mkImportPaths "data/seq" "data/seq/rgb.txt" "data/seq/depth.txt"
         "data/seq/groundtruth.txt")
    = os_path_join "data/seq" "depth.txt"
  ∧ depth_files_source
      (mkImportPaths "data/seq" "data/seq/rgb.txt" "data/seq/depth.txt"
         "data/seq/groundtruth.txt")
    = os_path_join "data/seq" "groundtruth.txt".
Proof.
  split; [exact import_dataset_paths_demo|].
  destruct (import_dataset_reads_swapped_files demo_fs 5 "data" _
              import_dataset_paths_demo) as (_ & _ & Htrajectory & Hdepth).
  split; [exact Htrajectory|exact Hdepth].
Defined.

End tum_files_props.

(** ** The aggregates of [get_results] *)

Section get_results_props.
Context {Value : Type}.
Variable nan : Value.
Variable np : np_func → list Value → Value.
Local Open Scope string_scope.

Lemma funcs_names :
  funcs.*1 = ["min"; "max"; "mean"; "median"; "std"].
Proof. reflexivity. Qed.

Lemma values_names :
  (values (Value := Value)).*1
  = ["frames_lost"; "frames_found"; "times_lost"; "times_found";
     "distance_lost"; "distance_found"].
Proof. reflexivity. Qed.

Example columns_to_compute_demo :
  (columns_to_compute (Value := Z)
     {[ "min_frames_lost"; "std_distance_found"; "max_speed"; "timestamp" ]}).*1.*1
  = ["min_frames_lost"; "std_distance_found"].
Proof. vm_compute. reflexivity. Qed.

Lemma elem_of_columns_to_compute (columns : gset string)
    (entry : string * np_func * (TrialErrors → list Value)) :
  entry ∈ columns_to_compute columns ↔
  ∃ value func,
    value ∈ values ∧ func ∈ funcs
    ∧ func.1 +:+ "_" +:+ value.1 ∈ columns
    ∧ entry = (func.1 +:+ "_" +:+ value.1, func.2, value.2).
Proof.
  unfold columns_to_compute. rewrite list_elem_of_bind. split.
  - intros (value & Hentry & Hvalue).
    apply list_elem_of_bind in Hentry as (func & Hentry & Hfunc).
    case_bool_decide as Hin; [|by apply elem_of_nil in Hentry].
    apply list_elem_of_singleton in Hentry. by exists value, func.
  - intros (value & func & Hvalue & Hfunc & Hin & ->).
    exists value. split; [|done]. apply list_elem_of_bind.
    exists func. split; [|done]. rewrite bool_decide_eq_true_2 by done.
    by apply list_elem_of_singleton.
Qed.

Lemma computed_names (columns : gset string) (name : string) :
  name ∈ (columns_to_compute (Value := Value) columns).*1.*1
  ↔ name ∈ columns ∧ aggregate_name name.
Proof.
  split.
  - intros (e1 & -> & (entry & -> & Hentry)%list_elem_of_fmap)%list_elem_of_fmap.
    apply elem_of_columns_to_compute
      in Hentry as (value & func & Hvalue & Hfunc & Hin & ->).
    split; [done|]. exists func.1, value.1. split; [|split; [|done]].
    + rewrite <- funcs_names. by apply list_elem_of_fmap_2.
    + rewrite <- values_names. by apply list_elem_of_fmap_2.
  - intros [Hin (func_name & col_name & Hfunc & Hcol & ->)].
    rewrite <- funcs_names in Hfunc. rewrite <- values_names in Hcol.
    apply list_elem_of_fmap in Hfunc as (func & -> & Hfunc).
    apply list_elem_of_fmap in Hcol as (value & -> & Hvalue).
    apply list_elem_of_fmap.
    exists (func.1 +:+ "_" +:+ value.1, func.2). split; [done|].
    apply list_elem_of_fmap.
    exists (func.1 +:+ "_" +:+ value.1, func.2, value.2). split; [done|].
    apply elem_of_columns_to_compute. by exists value, func.
Qed.

Lemma compute_columns_dom
    (to_compute : list (string * np_func * (TrialErrors → list Value)))
    (trial_errors : TrialErrors) (other_properties : gmap string Value) :
  dom (compute_columns nan np to_compute trial_errors other_properties)
  = dom other_properties ∪ list_to_set to_compute.*1.*1.
Proof.
  unfold compute_columns. revert other_properties.
  induction to_compute as [|entry to_compute IH]; intros props; simpl.
  - set_solver.
  - rewrite IH, dom_insert_L. set_solver.
Qed.

Lemma compute_columns_other
    (to_compute : list (string * np_func * (TrialErrors → list Value)))
    (trial_errors : TrialErrors) (other_properties : gmap string Value)
    (name : string) :
  name ∉ to_compute.*1.*1 →
  compute_columns nan np to_compute trial_errors other_properties !! name
  = other_properties !! name.
Proof.
  unfold compute_columns. revert other_properties.
  induction to_compute as [|entry to_compute IH]; intros props Hname; simpl.
  - done.
  - rewrite IH by set_solver. apply lookup_insert_ne. set_solver.
Qed.

Lemma restrict_dom (columns : gset string) (d : gmap string Value) :
  dom (restrict columns d) ⊆ columns.
Proof.
  intros name [v Hv]%elem_of_dom. unfold restrict in Hv.
  by apply map_lookup_filter_Some in Hv as [_ Hin].
Qed.

Lemma get_properties_dom (self : FrameError) (columns : gset string)
    (other_properties : gmap string Value) :
  dom other_properties ⊆ columns →
  dom (get_properties self columns other_properties) ⊆ columns.
Proof.
  intros Hother. unfold get_properties. cbv zeta. rewrite !dom_union_L.
  pose proof (restrict_dom columns (column_values self)).
  pose proof (restrict_dom columns (system_properties self)).
  pose proof (restrict_dom columns (image_properties self)).
  set_solver.
Qed.

Lemma get_results_loop_dom (columns : gset string)
    (trials : list TrialErrors)
    (st : gmap string Value * list (gmap string Value)) :
  dom st.1 ⊆ columns →
  Forall (λ d : gmap string Value, dom d ⊆ columns) st.2 →
  Forall (λ d : gmap string Value, dom d ⊆ columns)
    (foldl (λ (st : gmap string Value * list (gmap string Value))
              (trial_errors : TrialErrors),
              let other_properties :=
                compute_columns nan np (columns_to_compute columns)
                  trial_errors st.1 in
              (other_properties,
               (st.2 ++ ((λ frame_error : FrameError,
                            get_properties frame_error columns other_properties)
                           <$> frame_errors trial_errors))%list))
           st trials).2.
Proof.
  revert st. induction trials as [|trial_errors trials IH]; intros st H1 H2.
  - done.
  - simpl. apply IH; simpl.
    + rewrite compute_columns_dom. intros name [Hn|Hn]%elem_of_union.
      * by apply H1.
      * apply elem_of_list_to_set in Hn. by apply computed_names in Hn as [? _].
    + apply Forall_app. split; [done|]. apply Forall_fmap, Forall_forall.
      intros frame_error _. simpl. apply get_properties_dom.
      rewrite compute_columns_dom. intros name [Hn|Hn]%elem_of_union.
      * by apply H1.
      * apply elem_of_list_to_set in Hn. by apply computed_names in Hn as [? _].
Qed.

End get_results_props.

(** ** The trial protocol *)

Lemma filter_none {A : Type} (P : A → Prop) `{∀ x, Decision (P x)}
    (l : list A) :
  Forall (λ x, ¬ P x) l → filter P l = [].
Proof.
  induction 1 as [|x l Hx _ IH]; [done|].
  rewrite filter_cons, decide_False by done. exact IH.
Qed.

Lemma filter_all {A : Type} (P : A → Prop) `{∀ x, Decision (P x)}
    (l : list A) :
  Forall P l → filter P l = l.
Proof.
  induction 1 as [|x l Hx _ IH]; [done|].
  rewrite filter_cons, decide_True by done. by rewrite IH.
Qed.

Section trial_props.
Variable mat2quat : mat3 → quat.
Implicit Types (t : Trial) (returned : list (Z * FrameStats)).

Lemma lookup_returned_Some returned (ts : Z) :
  ts ∈ returned.*1 ↔ is_Some (lookup_returned ts returned).
Proof.
  induction returned as [|[ts' stats] returned IH]; simpl.
  - split; [by intros ?%elem_of_nil|by intros [? ?]].
  - rewrite elem_of_cons. case_bool_decide as Heq.
    + split; [by eexists|by left].
    + rewrite <- IH. split; [intros [?|?]; [congruence|done]|by right].
Qed.

Lemma lookup_returned_elem_of returned (ts : Z) (stats : FrameStats) :
  lookup_returned ts returned = Some stats → (ts, stats) ∈ returned.
Proof.
  induction returned as [|[ts' stats'] returned IH]; simpl; [done|].
  case_bool_decide as Heq.
  - intros [= ->]. subst. left.
  - intros Hl. right. by apply IH.
Qed.

Lemma records_timestamps returned (timestamps : list Z) :
  timestamp
    <$> omap (λ ts : Z,
                make_frame_record mat2quat ts <$> lookup_returned ts returned)
             timestamps
  = filter (λ ts : Z, ts ∈ returned.*1) timestamps.
Proof.
  induction timestamps as [|ts timestamps IH]; [done|].
  rewrite filter_cons. simpl.
  destruct (lookup_returned ts returned) as [stats|] eqn:Hl; simpl.
  - rewrite decide_True by (apply lookup_returned_Some; by eexists).
    f_equal. exact IH.
  - rewrite decide_False; [exact IH|].
    intros [stats Hs]%lookup_returned_Some. congruence.
Qed.

Lemma records_stats returned (timestamps : list Z) :
  Forall (λ r : FrameRecord,
            ∃ stats, lookup_returned (timestamp r) returned = Some stats
                     ∧ r = make_frame_record mat2quat (timestamp r) stats)
    (omap (λ ts : Z,
             make_frame_record mat2quat ts <$> lookup_returned ts returned)
          timestamps).
Proof.
  induction timestamps as [|ts timestamps IH]; simpl; [constructor|].
  destruct (lookup_returned ts returned) as [stats|] eqn:Hl; simpl; [|done].
  constructor; [|done]. by exists stats.
Qed.

Lemma finish_running t returned :
  state t = RUNNING →
  finish mat2quat (Some returned) t
  = (mkTrial FINISHED (fed t),
     inr ({| success :=
               bool_decide
                 (0 < length
                        (omap (λ ts : Z,
                                 make_frame_record mat2quat ts
                                   <$> lookup_returned ts returned) (fed t)))%nat;
             results :=
               omap (λ ts : Z,
                       make_frame_record mat2quat ts
                         <$> lookup_returned ts returned) (fed t) |},
          filter (λ ts : Z, ts ∉ fed t) returned.*1
          ++ filter (λ ts : Z, ts ∉ returned.*1) (fed t))).
Proof. intros Hstate. unfold finish. by rewrite Hstate. Qed.

Lemma process_all_running (timestamps : list Z) t :
  state t = RUNNING →
  process_all timestamps t = mkTrial RUNNING (fed t ++ timestamps).
Proof.
  revert t. induction timestamps as [|ts timestamps IH]; intros t Hstate.
  - simpl. rewrite app_nil_r. destruct t; simpl in *. by subst.
  - unfold process_all in *. simpl. unfold process at 2. rewrite Hstate. simpl.
    rewrite IH by done. simpl. by rewrite <- app_assoc.
Qed.

Lemma lookup_returned_NoDup returned (ts : Z) (stats : FrameStats) :
  NoDup returned.*1 → (ts, stats) ∈ returned →
  lookup_returned ts returned = Some stats.
Proof.
  induction returned as [|[ts' stats'] returned IH]; simpl.
  - by intros _ ?%elem_of_nil.
  - intros [Hts' Hnd]%NoDup_cons [Heq|Hin]%elem_of_cons.
    + injection Heq as -> ->. by rewrite bool_decide_eq_true_2.
    + case_bool_decide as Hts; [|by apply IH]. subst ts'. destruct Hts'.
      apply list_elem_of_fmap. by exists (ts, stats).
Qed.

Lemma lookup_returned_Permutation returned returned' (ts : Z) :
  NoDup returned.*1 → returned' ≡ₚ returned →
  lookup_returned ts returned' = lookup_returned ts returned.
Proof.
  intros Hnd Hperm.
  destruct (lookup_returned ts returned') as [stats|] eqn:Hl.
  - symmetry. apply lookup_returned_NoDup; [done|].
    rewrite <- Hperm. by apply lookup_returned_elem_of.
  - destruct (lookup_returned ts returned) as [stats|] eqn:Hl'; [|done].
    assert (ts ∈ returned'.*1) as Hin.
    { rewrite Hperm. apply lookup_returned_Some. by eexists. }
    apply lookup_returned_Some in Hin as [? ?]. congruence.
Qed.

End trial_props.

Example finish_all_returned :
  let t := process_all test_fed (start true true new_trial).1 in
  let outcome := finish test_mat2quat (Some (test_returned (λ _, true))) t in
  state t = RUNNING
  ∧ state outcome.1 = FINISHED
  ∧ sum_map Datatypes.id (success ∘ fst) outcome.2 = inr true
  ∧ sum_map Datatypes.id (λ res, timestamp <$> results res.1) outcome.2
    = inr [0; 13; 26; 39; 52; 65; 78; 91; 104; 117]%Z
  ∧ sum_map Datatypes.id snd outcome.2 = inr [].
Proof. vm_compute. done. Qed.

Example finish_all_but_one_returned :
  let t := process_all test_fed (start true true new_trial).1 in
  let outcome :=
    finish test_mat2quat
      (Some (test_returned (λ idx, negb (idx =? 5)%Z))) t in
  sum_map Datatypes.id (success ∘ fst) outcome.2 = inr true
  ∧ sum_map Datatypes.id (λ res, timestamp <$> results res.1) outcome.2
    = inr [0; 13; 26; 39; 52; 78; 91; 104; 117]%Z
  ∧ sum_map Datatypes.id snd outcome.2 = inr [65]%Z.
Proof. vm_compute. done. Qed.

Example finish_without_frames :
  let t := (start true true new_trial).1 in
  let outcome := finish test_mat2quat (Some (test_returned (λ _, true))) t in
  sum_map Datatypes.id (success ∘ fst) outcome.2 = inr false
  ∧ sum_map Datatypes.id (λ res, results res.1) outcome.2 = inr []
  ∧ sum_map Datatypes.id snd outcome.2 = inr [0; 13; 26; 39; 52; 65; 78; 91; 104; 117]%Z.
Proof. vm_compute. done. Qed.

Example finish_unstarted :
  (finish test_mat2quat (Some []) new_trial).2 = inl UsageError.
Proof. reflexivity. Qed.

(** C2. [finish] on a running trial returns a trial result whose
    FrameRecords are those of the fed timestamps that the returned mapping
    has, in feed order; a fed timestamp that the mapping lacks has no
    record; each record carries the processing time, the feature count,
    the match count and the tracking state that the mapping gives for its
    timestamp; and the order in which the worker returned the items of the
    mapping does not matter. *)
Theorem finish_records_fed_and_returned (mat2quat : mat3 → quat)
    (t : Trial) (returned : list (Z * FrameStats)) :
  state t = RUNNING →
  ∃ (result : TrialResult) (warnings : list Z),
    finish mat2quat (Some returned) t
    = (mkTrial FINISHED (fed t), inr (result, warnings))
    ∧ timestamp <$> results result
      = filter (λ ts : Z, ts ∈ returned.*1) (fed t)
    ∧ (∀ ts : Z, ts ∉ returned.*1 → ts ∉ timestamp <$> results result)
    ∧ Forall (λ r : FrameRecord,
                ∃ stats : FrameStats,
                  lookup_returned (timestamp r) returned = Some stats
                  ∧ processing_time r = stats_processing_time stats
                  ∧ num_features r = stats_num_features stats
                  ∧ num_matches r = stats_num_matches stats
                  ∧ tracking_state r = stats_tracking_state stats)
        (results result)
    ∧ (∀ returned' : list (Z * FrameStats),
         NoDup returned.*1 → returned' ≡ₚ returned →
         ∃ warnings' : list Z,
           finish mat2quat (Some returned') t
           = (mkTrial FINISHED (fed t), inr (result, warnings'))).
Proof.
  intros Hstate. rewrite (finish_running mat2quat t returned Hstate).
  eexists _, _. split; [reflexivity|]. cbn [results success].
  split; [apply records_timestamps|]. split; [|split].
  - intros ts Hts. rewrite records_timestamps.
    intros [Hin _]%list_elem_of_filter. done.
  - eapply Forall_impl; [apply records_stats|].
    intros r (stats & Hl & Hr). exists stats. split; [done|].
    rewrite Hr. done.
  - intros returned' Hnd Hperm.
    rewrite (finish_running mat2quat t returned' Hstate).
    eexists. do 2 f_equal. 
    assert (omap (λ ts : Z,
                    make_frame_record mat2quat ts
                      <$> lookup_returned ts returned') (fed t)
            = omap (λ ts : Z,
                      make_frame_record mat2quat ts
                        <$> lookup_returned ts returned) (fed t)) as ->.
    { apply list_omap_ext, Forall2_same_length_lookup_2; [done|].
      intros i ts ts' Hi Hi'. simplify_eq.
      by rewrite (lookup_returned_Permutation returned returned'). }
    reflexivity.
Qed.

Lemma finish_records_fed_and_returned_witness :
  state test_trial = RUNNING
  ∧ ∃ (result : TrialResult) (warnings : list Z),
      finish test_mat2quat (Some test_returned_but_5) test_trial
      = (mkTrial FINISHED (fed test_trial), inr (result, warnings))
      ∧ timestamp <$> results result
        = filter (λ ts : Z, ts ∈ test_returned_but_5.*1) (fed test_trial).
Proof.
  assert (state test_trial = RUNNING) as Hstate by reflexivity.
  split; [exact Hstate|].
  destruct (finish_records_fed_and_returned test_mat2quat test_trial
              test_returned_but_5 Hstate)
    as (result & warnings & Hfinish & Htimestamps & _).
  exists result, warnings. split; [exact Hfinish|exact Htimestamps].
Defined.

(** C3. [finish] on a running trial does not raise when the worker
    returned a payload. The result is successful exactly when it has at
    least one FrameRecord, which is when some fed timestamp was returned:
    the timestamps with a record are the fed timestamps that were
    returned. Every returned timestamp that was never fed is
    among the warnings and has no record; the warnings are these and the
    fed timestamps that the worker returned nothing for, and no timestamp
    of a warning has a record. When no returned timestamp was fed, the
    result is unsuccessful and has no FrameRecord, and the warnings are
    all the returned timestamps followed by all the fed ones. *)
Theorem finish_success_iff_records (mat2quat : mat3 → quat)
    (t : Trial) (returned : list (Z * FrameStats)) :
  state t = RUNNING →
  ∃ (result : TrialResult) (warnings : list Z),
    finish mat2quat (Some returned) t
    = (mkTrial FINISHED (fed t), inr (result, warnings))
    ∧ (success result = true ↔ results result ≠ [])
    ∧ (success result = true ↔ ∃ ts : Z, ts ∈ fed t ∧ ts ∈ returned.*1)
    ∧ (∀ ts : Z, ts ∈ timestamp <$> results result
                 ↔ ts ∈ fed t ∧ ts ∈ returned.*1)
    ∧ (∀ ts : Z, ts ∈ returned.*1 → ts ∉ fed t →
         ts ∈ warnings ∧ ts ∉ timestamp <$> results result)
    ∧ (∀ ts : Z, ts ∈ warnings ↔
         (ts ∈ returned.*1 ∧ ts ∉ fed t) ∨ (ts ∈ fed t ∧ ts ∉ returned.*1))
    ∧ (∀ ts : Z, ts ∈ warnings → ts ∉ timestamp <$> results result)
    ∧ ((∀ ts : Z, ts ∈ returned.*1 → ts ∉ fed t) →
       success result = false ∧ results result = []
       ∧ warnings = returned.*1 ++ fed t).
Proof.
  intros Hstate. rewrite (finish_running mat2quat t returned Hstate).
  eexists _, _. split; [reflexivity|]. cbn [results success].
  assert (∀ ts : Z,
            ts ∈ filter (λ ts : Z, ts ∉ fed t) returned.*1
                 ++ filter (λ ts : Z, ts ∉ returned.*1) (fed t)
            ↔ (ts ∈ returned.*1 ∧ ts ∉ fed t)
              ∨ (ts ∈ fed t ∧ ts ∉ returned.*1)) as Hwarnings.
  { intros ts. rewrite elem_of_app, !list_elem_of_filter. tauto. }
  assert (∀ ts : Z,
            ts ∈ timestamp
                   <$> omap (λ ts : Z,
                               make_frame_record mat2quat ts
                                 <$> lookup_returned ts returned) (fed t)
            ↔ ts ∈ fed t ∧ ts ∈ returned.*1) as Hrecords.
  { intros ts. rewrite records_timestamps, list_elem_of_filter. tauto. }
  assert (bool_decide
            (0 < length (omap (λ ts : Z,
                                 make_frame_record mat2quat ts
                                   <$> lookup_returned ts returned) (fed t)))%nat
          = true
          ↔ omap (λ ts : Z,
                    make_frame_record mat2quat ts
                      <$> lookup_returned ts returned) (fed t) ≠ [])
    as Hsuccess.
  { rewrite bool_decide_eq_true.
    destruct (omap _ (fed t)); simpl; split; (done || lia). }
  split; [exact Hsuccess|]. split; [|split; [exact Hrecords|]].
  { rewrite Hsuccess. split.
    - intros Hne.
      assert (∃ ts : Z,
                ts ∈ timestamp
                       <$> omap (λ ts : Z,
                                   make_frame_record mat2quat ts
                                     <$> lookup_returned ts returned) (fed t))
        as [ts Hts].
      { destruct (omap _ (fed t)) as [|r records]; [done|].
        exists (timestamp r). left. }
      exists ts. by apply Hrecords.
    - intros (ts & Hts) Hnil. apply Hrecords in Hts.
      rewrite Hnil in Hts. by apply elem_of_nil in Hts. }
  split; [|split; [|split]].
  - intros ts Hret Hfed. split; [apply Hwarnings; by left|].
    rewrite records_timestamps. intros [_ Hin]%list_elem_of_filter. done.
  - exact Hwarnings.
  - intros ts [[Hret Hfed]|[Hfed Hret]]%Hwarnings; rewrite records_timestamps;
      intros [Hin Hin']%list_elem_of_filter; done.
  - intros Hnone.
    assert (omap (λ ts : Z,
                    make_frame_record mat2quat ts
                      <$> lookup_returned ts returned) (fed t) = []) as ->.
    { apply fmap_nil_inv with (f := timestamp).
      rewrite records_timestamps.
      apply filter_none, Forall_forall. intros ts Hfed Hret.
      by apply (Hnone ts). }
    split; [done|]. split; [done|]. f_equal.
    + apply filter_all, Forall_forall. exact Hnone.
    + apply filter_all, Forall_forall. intros ts Hfed Hret.
      by apply (Hnone ts).
Qed.

Lemma finish_success_iff_records_witness :
  state test_trial = RUNNING
  ∧ ∃ (result : TrialResult) (warnings : list Z),
      finish test_mat2quat (Some test_returned_but_5) test_trial
      = (mkTrial FINISHED (fed test_trial), inr (result, warnings))
      ∧ (success result = true ↔ results result ≠ [])
      ∧ (∀ ts : Z, ts ∈ warnings ↔
           (ts ∈ test_returned_but_5.*1 ∧ ts ∉ fed test_trial)
           ∨ (ts ∈ fed test_trial ∧ ts ∉ test_returned_but_5.*1)).
Proof.
  assert (state test_trial = RUNNING) as Hstate by reflexivity.
  split; [exact Hstate|].
  destruct (finish_success_iff_records test_mat2quat test_trial
              test_returned_but_5 Hstate)
    as (result & warnings & Hfinish & Hsuccess & _ & _ & _ & Hwarnings & _).
  exists result, warnings.
  split; [exact Hfinish|]. split; [exact Hsuccess|exact Hwarnings].
Defined.

(** * Further properties *)

(** ** [associate_data], whatever [associate] returns *)

Section associate_data_inversion.
Context {V : Type}.
Variable associate : gmap Z V → gmap Z V → Z → Z → list (Z * Z).
Variable max_difference : Z.
Implicit Types (root other : gmap Z V) (args maps : list (gmap Z V)).

Lemma rekey_loop_None root args :
  foldl (rekey_step associate max_difference root) None args = None.
Proof. induction args as [|other args IH]; [done|]. simpl. exact IH. Qed.

Lemma rekey_fold_None other (matches : list (Z * Z)) :
  foldl (λ (acc : option (gmap Z V)) (m : Z * Z),
           rekeyed ← acc; v ← other !! m.2; Some (<[m.1 := v]> rekeyed))
        None matches = None.
Proof. induction matches as [|m matches IH]; [done|]. simpl. exact IH. Qed.

Lemma rekey_fold_missing other (matches : list (Z * Z))
    (acc : option (gmap Z V)) (a b : Z) :
  (a, b) ∈ matches → b ∉ dom other →
  foldl (λ (acc : option (gmap Z V)) (m : Z * Z),
           rekeyed ← acc; v ← other !! m.2; Some (<[m.1 := v]> rekeyed))
        acc matches = None.
Proof.
  intros Hin Hb. revert acc.
  induction matches as [|m matches IH]; intros acc.
  - by apply elem_of_nil in Hin.
  - simpl. apply elem_of_cons in Hin as [<-|Hin].
    + simpl. apply not_elem_of_dom in Hb. rewrite Hb.
      destruct acc; simpl; apply rekey_fold_None.
    + by apply IH.
Qed.

Lemma rekey_fold_lookup other (matches : list (Z * Z))
    (acc rekeyed : gmap Z V) (k : Z) (v : V) :
  foldl (λ (acc : option (gmap Z V)) (m : Z * Z),
           rekeyed ← acc; v ← other !! m.2; Some (<[m.1 := v]> rekeyed))
        (Some acc) matches = Some rekeyed →
  rekeyed !! k = Some v →
  acc !! k = Some v ∨ ∃ b, (k, b) ∈ matches ∧ other !! b = Some v.
Proof.
  revert acc. induction matches as [|[a b] matches IH]; intros acc; simpl.
  - intros [= ->]. by left.
  - destruct (other !! b) as [w|] eqn:Hw; simpl.
    + intros Hfold Hk. destruct (IH _ Hfold Hk) as [Hacc|(b' & Hin & Hb')].
      * destruct (decide (a = k)) as [->|Hne].
        -- rewrite lookup_insert_eq in Hacc. injection Hacc as ->.
           right. exists b. split; [left|done].
        -- rewrite lookup_insert_ne in Hacc by done. by left.
      * right. exists b'. split; [by right|done].
    + by rewrite rekey_fold_None.
Qed.

Lemma rekey_rekeyed_from root other (rekeyed : gmap Z V) :
  rekey other (associate root other 0 max_difference) = Some rekeyed →
  rekeyed_from associate max_difference root other rekeyed.
Proof.
  intros Hrekey k v Hk.
  destruct (rekey_fold_lookup _ _ _ _ _ _ Hrekey Hk) as [Hempty|Hmatch];
    [by rewrite lookup_empty in Hempty|done].
Qed.

Lemma rekey_loop_inv root args (keys keys' : gset Z) maps maps' :
  foldl (rekey_step associate max_difference root) (Some (keys, maps)) args
  = Some (keys', maps') →
  keys' ⊆ keys
  ∧ ∃ new, maps' = maps ++ new ∧ Forall2 (rekeyed_from associate max_difference root) args new.
Proof.
  revert keys maps. induction args as [|other args IH]; intros keys maps; simpl.
  - intros [= -> ->]. split; [done|]. exists []. by rewrite app_nil_r.
  - destruct (rekey other (associate root other 0 max_difference))
      as [rekeyed|] eqn:Hrekey; simpl; [|by rewrite rekey_loop_None].
    intros Hfold. apply IH in Hfold as (Hsub & new & -> & Hnew).
    split; [set_solver|]. exists (rekeyed :: new).
    rewrite <- app_assoc. split; [done|].
    constructor; [by apply rekey_rekeyed_from|done].
Qed.

Lemma rekey_loop_missing root args other (st : option (gset Z * list (gmap Z V)))
    (a b : Z) :
  other ∈ args → (a, b) ∈ associate root other 0 max_difference →
  b ∉ dom other →
  foldl (rekey_step associate max_difference root) st args = None.
Proof.
  intros Hother Hin Hb. revert st.
  induction args as [|other' args IH]; intros st.
  - by apply elem_of_nil in Hother.
  - simpl. apply elem_of_cons in Hother as [<-|Hother]; [|by apply IH].
    destruct st as [[keys maps]|]; simpl; [|apply rekey_loop_None].
    unfold rekey. rewrite (rekey_fold_missing other _ _ a b Hin Hb). simpl.
    apply rekey_loop_None.
Qed.

Lemma make_row_inv root maps (k : Z) (r : row V) :
  make_row root maps k = Some r →
  r.1 = k ∧ row_payloads (root :: maps) r.
Proof.
  unfold make_row. destruct (root !! k) as [v|] eqn:Hv; simpl; [|done].
  destruct (mapM (λ m : gmap Z V, m !! k) maps) as [vs|] eqn:Hvs; simpl;
    [|done].
  intros [= <-]. split; [done|]. constructor; [done|].
  by apply mapM_Some_1 in Hvs.
Qed.

Lemma mapM_make_row_inv root maps (l : list Z) (rows : list (row V)) :
  mapM (make_row root maps) l = Some rows →
  rows.*1 = l ∧ Forall (row_payloads (root :: maps)) rows.
Proof.
  intros Hrows%mapM_Some_1.
  induction Hrows as [|k r l rows Hr _ [IH1 IH2]]; [done|].
  apply make_row_inv in Hr as [Hr1 Hr2]. split; [|by constructor].
  rewrite fmap_cons. by rewrite Hr1, IH1.
Qed.

(** Every result of [associate_data] is the table of some set of reference
    keys over the reference series and one map per secondary series: the
    series itself on the fast path, its rekeyed map on the general path. *)
Lemma associate_data_inv root args (rows : list (row V)) :
  associate_data associate max_difference root args = Some rows →
  ∃ (keys : gset Z) maps,
    keys ⊆ dom root
    ∧ is_table keys (root :: maps) rows
    ∧ (if all_same (dom root) args then maps = args
       else Forall2 (rekeyed_from associate max_difference root) args maps).
Proof.
  unfold associate_data. case_bool_decide as Hlen.
  - destruct args; [|simpl in Hlen; lia]. intros [= <-].
    exists (dom root), []. split; [done|]. split; [|done].
    apply sorted_is_table; [apply items_keys|apply items_payloads].
  - cbv zeta. destruct (all_same (dom root) args) eqn:Hsame.
    + destruct (mapM (make_row root args) (elements (dom root)))
        as [rows0|] eqn:Hrows0; simpl; [|done].
      intros [= <-]. apply mapM_make_row_inv in Hrows0 as [Hk Hp].
      exists (dom root), args. split; [done|]. split.
      * apply sorted_is_table; [by rewrite Hk|done].
      * done.
    + destruct (foldl (rekey_step associate max_difference root)
                  (Some (dom root, [])) args) as [[keys maps]|] eqn:Hfold;
        simpl; [|done].
      destruct (mapM (make_row root maps) (elements keys))
        as [rows0|] eqn:Hrows0; simpl; [|done].
      intros [= <-]. apply mapM_make_row_inv in Hrows0 as [Hk Hp].
      apply rekey_loop_inv in Hfold as (Hsub & new & -> & Hnew).
      exists keys, new. split; [done|]. split.
      * apply sorted_is_table; [by rewrite Hk|done].
      * done.
Qed.

Lemma associate_data_shape root args (rows : list (row V)) :
  associate_data associate max_difference root args = Some rows →
  StronglySorted Z.lt rows.*1
  ∧ Forall (λ r : row V,
              ∃ v vs, r.2 = v :: vs ∧ root !! r.1 = Some v
                      ∧ length vs = length args) rows.
Proof.
  intros Hrows.
  apply associate_data_inv in Hrows
    as (keys & maps & _ & (Hsorted & _ & _ & Hpay) & Hmaps).
  split; [done|].
  assert (length maps = length args) as Hlen.
  { destruct (all_same (dom root) args); [by subst|].
    symmetry. by eapply Forall2_length. }
  eapply Forall_impl; [exact Hpay|]. intros [k payloads] Hr.
  unfold row_payloads in Hr. simpl in *.
  apply Forall2_cons_inv_l in Hr as (v & vs & Hv & Hvs & ->).
  exists v, vs. split; [done|]. split; [done|].
  apply Forall2_length in Hvs. congruence.
Qed.

Lemma Forall2_Forall_and {A B : Type} (P : A → B → Prop) (Q : A → Prop)
    (l : list A) (k : list B) :
  Forall2 P l k → Forall Q l → Forall2 (λ a b, P a b ∧ Q a) l k.
Proof.
  induction 1 as [|a b l k Hab _ IH]; intros Hl; [constructor|].
  apply Forall_cons in Hl as [Ha Hl]. constructor; [done|by apply IH].
Qed.

End associate_data_inversion.

(** X1. Whatever [associate] reports, a result of [associate_data] has its
    rows in strictly ascending key order; the key of each row is a key of
    the reference series, its first payload is the payload of that key in
    the reference series, and one payload per secondary series follows. *)
Theorem associate_data_rows_shape {V : Type}
    (associate : gmap Z V → gmap Z V → Z → Z → list (Z * Z))
    (max_difference : Z) (root : gmap Z V) (args : list (gmap Z V))
    (rows : list (row V)) :
  associate_data associate max_difference root args = Some rows →
  StronglySorted Z.lt rows.*1
  ∧ Forall (λ r : row V,
              ∃ v vs, r.2 = v :: vs ∧ root !! r.1 = Some v
                      ∧ length vs = length args) rows.
Proof. apply associate_data_shape. Qed.

Lemma associate_data_rows_shape_witness :
  associate_data greedy_associate 1 demo_root [demo_near; demo_far]
  = Some [(1, [10; 12; 23]); (5, [50; 62; 53])]%Z
  ∧ StronglySorted Z.lt [(1, [10; 12; 23]); (5, [50; 62; 53])]%Z.*1.
Proof.
  split; [exact associate_data_demo_near|].
  exact (proj1 (associate_data_rows_shape greedy_associate 1 demo_root
                  [demo_near; demo_far] _ associate_data_demo_near)).
Defined.

(** X2. On the general path, a match whose secondary key the secondary
    series lacks makes [associate_data] raise ([KeyError], here [None]):
    no row is returned, not even for the keys that were matched well. *)
Theorem associate_data_key_error {V : Type}
    (associate : gmap Z V → gmap Z V → Z → Z → list (Z * Z))
    (max_difference : Z) (root : gmap Z V) (args : list (gmap Z V))
    (other : gmap Z V) (a b : Z) :
  ¬ Forall (λ other : gmap Z V, dom other = dom root) args →
  other ∈ args →
  (a, b) ∈ associate root other 0%Z max_difference →
  b ∉ dom other →
  associate_data associate max_difference root args = None.
Proof.
  intros Hdiff Hother Hin Hb. unfold associate_data.
  destruct args as [|other' args]; [by destruct Hdiff|].
  rewrite bool_decide_eq_false_2 by (simpl; lia). cbv zeta.
  destruct (all_same (dom root) (other' :: args)) eqn:Hsame.
  { by apply all_same_Forall in Hsame. }
  by rewrite (rekey_loop_missing associate max_difference root
                (other' :: args) other _ a b Hother Hin Hb).
Qed.

Lemma associate_data_key_error_witness :
  ¬ Forall (λ other : gmap Z Z, dom other = dom demo_root) [demo_near]
  ∧ demo_near ∈ [demo_near]
  ∧ (1, 7)%Z ∈ stale_associate demo_root demo_near 0%Z 1%Z
  ∧ (7%Z ∉ dom demo_near)
  ∧ associate_data stale_associate 1 demo_root [demo_near] = None.
Proof.
  assert (¬ Forall (λ other : gmap Z Z, dom other = dom demo_root) [demo_near])
    as Hdiff.
  { intros Hsame. apply Forall_cons in Hsame as [Hsame _].
    vm_compute in Hsame. discriminate Hsame. }
  assert (demo_near ∈ [demo_near]) as Hother by left.
  assert ((1, 7)%Z ∈ stale_associate demo_root demo_near 0%Z 1%Z) as Hin
    by left.
  assert (7%Z ∉ dom demo_near) as Hb.
  { intros [v Hv]%elem_of_dom. vm_compute in Hv. discriminate Hv. }
  repeat (split; [assumption|]).
  exact (associate_data_key_error stale_associate 1 demo_root [demo_near]
           demo_near 1 7 Hdiff Hother Hin Hb).
Defined.

(** X3. On the general path each payload of a secondary series is a
    rekeyed one: in the row of key [k], the payload at the place of a
    secondary series is the payload that this series has under a key that
    [associate] matched with [k]. *)
Theorem associate_data_rekeyed_payloads {V : Type}
    (associate : gmap Z V → gmap Z V → Z → Z → list (Z * Z))
    (max_difference : Z) (root : gmap Z V) (args : list (gmap Z V))
    (rows : list (row V)) :
  ¬ Forall (λ other : gmap Z V, dom other = dom root) args →
  associate_data associate max_difference root args = Some rows →
  Forall (λ r : row V,
            ∃ v vs,
              r.2 = v :: vs
              ∧ Forall2 (λ (other : gmap Z V) (x : V),
                           ∃ b, (r.1, b) ∈ associate root other 0%Z max_difference
                                ∧ other !! b = Some x) args vs) rows.
Proof.
  intros Hdiff Hrows.
  apply associate_data_inv in Hrows
    as (keys & maps & _ & (_ & _ & _ & Hpay) & Hmaps).
  destruct (all_same (dom root) args) eqn:Hsame.
  { by apply all_same_Forall in Hsame. }
  eapply Forall_impl; [exact Hpay|]. intros [k payloads] Hr.
  unfold row_payloads in Hr. simpl in *.
  apply Forall2_cons_inv_l in Hr as (v & vs & Hv & Hvs & ->).
  exists v, vs. split; [done|].
  clear Hpay Hsame Hdiff. revert vs Hvs.
  induction Hmaps as [|other m args maps Hm _ IH]; intros vs Hvs.
  - apply Forall2_nil_inv_l in Hvs as ->. constructor.
  - apply Forall2_cons_inv_l in Hvs as (x & vs' & Hx & Hvs' & ->).
    constructor; [by apply Hm|by apply IH].
Qed.

Lemma associate_data_rekeyed_payloads_witness :
  ¬ Forall (λ other : gmap Z Z, dom other = dom demo_root) [demo_near; demo_far]
  ∧ associate_data greedy_associate 1 demo_root [demo_near; demo_far]
    = Some [(1, [10; 12; 23]); (5, [50; 62; 53])]%Z
  ∧ Forall (λ r : row Z,
              ∃ v vs,
                r.2 = v :: vs
                ∧ Forall2 (λ (other : gmap Z Z) (x : Z),
                             ∃ b, (r.1, b) ∈ greedy_associate demo_root other 0%Z 1%Z
                                  ∧ other !! b = Some x)
                          [demo_near; demo_far] vs)
      [(1, [10; 12; 23]); (5, [50; 62; 53])]%Z.
Proof.
  assert (¬ Forall (λ other : gmap Z Z, dom other = dom demo_root)
              [demo_near; demo_far]) as Hdiff.
  { intros Hsame. apply Forall_cons in Hsame as [Hsame _].
    vm_compute in Hsame. discriminate Hsame. }
  split; [exact Hdiff|]. split; [exact associate_data_demo_near|].
  exact (associate_data_rekeyed_payloads greedy_associate 1 demo_root
           [demo_near; demo_far] _ Hdiff associate_data_demo_near).
Defined.
(** ** The frames of a TUM import *)

Section tum_import_props.
Context {V T : Type}.
Variable sub : Z → Z → T.

Lemma import_fold (rows : list (row V)) (first_timestamp : option Z)
    (acc : list (T * V * V * V)) :
  Forall (λ r : row V, length r.2 = 3) rows →
  ∃ frames first_timestamp',
    foldl (import_step sub) (Some (first_timestamp, acc)) rows
    = Some (first_timestamp', acc ++ frames)
    ∧ Forall2 (λ (r : row V) (f : T * V * V * V),
                 f.1.1.1
                 = sub r.1 (default (default 0%Z (head rows.*1)) first_timestamp)
                 ∧ r.2 = [f.1.1.2; f.1.2; f.2]) rows frames.
Proof.
  intros Hrows. revert first_timestamp acc.
  induction Hrows as [|r rows Hr _ IH]; intros first_timestamp acc.
  - exists [], first_timestamp. simpl. rewrite app_nil_r. by split.
  - destruct r as [k payloads]. simpl in Hr.
    destruct payloads as [|a [|b [|c [|]]]]; try discriminate Hr.
    simpl.
    destruct (IH (Some (default k first_timestamp))
                (acc ++ [(sub k (default k first_timestamp), a, b, c)]))
      as (frames & ft' & Hfold & Hframes).
    exists ((sub k (default k first_timestamp), a, b, c) :: frames), ft'.
    rewrite Hfold, <- app_assoc. split; [done|].
    constructor; [done|].
    eapply Forall2_impl; [exact Hframes|]. by intros r f [-> ->].
Qed.

Lemma import_frames_timestamps (rows : list (row V))
    (frames : list (T * V * V * V)) (t0 : Z) :
  Forall2 (λ (r : row V) (f : T * V * V * V),
             f.1.1.1 = sub r.1 t0 ∧ r.2 = [f.1.1.2; f.1.2; f.2])
          rows frames →
  frames.*1.*1.*1 = (λ k : Z, sub k t0) <$> rows.*1.
Proof.
  induction 1 as [|r f rows frames [Hts _] _ IH]; [done|].
  rewrite !fmap_cons, IH. by rewrite Hts.
Qed.

End tum_import_props.

(** X4. When the association of a TUM import returns, the loop that
    follows unpacks every row (each has the three payloads it expects) and
    yields one frame per row. The timestamp of a frame is the difference,
    as the subtraction [sub] of the keys computes it, of the key of its row
    and the first key; the first timestamp is the first key less itself.
    The image file of a frame is the one that [image_files] has under the
    key of its row. The order of the timestamps is that of the keys as far
    as the subtraction keeps it: a relation that holds between the
    differences [sub a c] and [sub b c] whenever [a < b] holds between
    every earlier and every later timestamp. With a subtraction that is
    only monotone, as that of [float], the timestamps are ascending but
    two of them can be equal; with the exact subtraction they are strictly
    ascending and start at zero. *)
Theorem import_dataset_frames_rezeroed {V T : Type} (sub : Z → Z → T)
    (associate : gmap Z V → gmap Z V → Z → Z → list (Z * Z))
    (image_files trajectory depth_files : gmap Z V) (rows : list (row V)) :
  associate_data associate 1 image_files [trajectory; depth_files] = Some rows →
  ∃ frames : list (T * V * V * V),
    import_dataset_frames sub associate image_files trajectory depth_files
    = Some frames
    ∧ Forall2 (λ (r : row V) (f : T * V * V * V),
                 f.1.1.1 = sub r.1 (default 0%Z (head rows.*1))
                 ∧ image_files !! r.1 = Some f.1.1.2
                 ∧ r.2 = [f.1.1.2; f.1.2; f.2]) rows frames
    ∧ (∀ t : T, head frames.*1.*1.*1 = Some t →
         ∃ k : Z, head rows.*1 = Some k ∧ t = sub k k)
    ∧ (∀ R : T → T → Prop,
         (∀ a b c : Z, (a < b)%Z → R (sub a c) (sub b c)) →
         StronglySorted R frames.*1.*1.*1).
Proof.
  intros Hrows.
  destruct (associate_data_shape associate 1 image_files
              [trajectory; depth_files] rows Hrows) as [Hsorted Hshape].
  destruct (import_fold sub rows None []) as (frames & ft' & Hfold & Hframes).
  { eapply Forall_impl; [exact Hshape|].
    intros r (v & vs & -> & _ & Hlen). simpl in *. by rewrite Hlen. }
  exists frames. unfold import_dataset_frames, import_frames.
  rewrite Hrows. simpl. rewrite Hfold. simpl. split; [done|].
  simpl in Hframes.
  assert (frames.*1.*1.*1
          = (λ k : Z, sub k (default 0%Z (head rows.*1))) <$> rows.*1) as Hts.
  { apply import_frames_timestamps.
    eapply Forall2_impl; [exact Hframes|]. by intros r f [-> ->]. }
  split; [|split].
  - eapply Forall2_impl;
      [exact (Forall2_Forall_and _ _ _ _ Hframes Hshape)|].
    intros r f [[Hf Hr] (v & vs & Hv & Hroot & _)]. simpl in *.
    split; [done|]. split; [|done].
    rewrite Hr in Hv. injection Hv as <- _. done.
  - rewrite Hts. destruct rows as [|r rows]; simpl; [done|].
    intros t [= <-]. by exists r.1.
  - intros R HR. rewrite Hts.
    apply (StronglySorted_fmap _ Z.lt R); [|done].
    intros k1 k2. apply HR.
Qed.

Lemma import_dataset_frames_rezeroed_witness :
  associate_data greedy_associate 1 demo_root [demo_near; demo_far]
  = Some [(1, [10; 12; 23]); (5, [50; 62; 53])]%Z
  ∧ ∃ frames : list (Z * Z * Z * Z),
      import_dataset_frames Z.sub greedy_associate demo_root demo_near demo_far
      = Some frames
      ∧ StronglySorted Z.lt frames.*1.*1.*1
      ∧ (∀ t : Z, head frames.*1.*1.*1 = Some t → t = 0%Z).
Proof.
  split; [exact associate_data_demo_near|].
  destruct (import_dataset_frames_rezeroed Z.sub greedy_associate demo_root
              demo_near demo_far _ associate_data_demo_near)
    as (frames & Hframes & _ & Hfirst & Hsorted).
  exists frames. split; [exact Hframes|]. split.
  - apply Hsorted. intros a b c. lia.
  - intros t Ht. destruct (Hfirst t Ht) as (k & _ & ->). lia.
Defined.

Example import_dataset_frames_demo :
  import_dataset_frames Z.sub greedy_associate demo_root demo_near demo_far
  = Some [(0, 10, 12, 23); (4, 50, 62, 53)]%Z.
Proof. vm_compute. reflexivity. Qed.

(** A subtraction that rounds, here to a multiple of ten: the timestamps
    of two different rows are equal. *)
Example import_dataset_frames_rounded :
  import_dataset_frames (λ a b : Z, ((a - b) / 10 * 10)%Z)
    greedy_associate demo_root demo_near demo_far
  = Some [(0, 10, 12, 23); (0, 50, 62, 53)]%Z.
Proof. vm_compute. reflexivity. Qed.

(** ** Frames and pose errors *)

Section pose_extras.
Local Open Scope R_scope.

Lemma np_dot_nonneg (a : vec3) : 0 <= np_dot a a.
Proof. destruct a as [[ax ay] az]. unfold np_dot. nra. Qed.

Lemma np_linalg_norm_sqr (a : vec3) :
  np_linalg_norm a * np_linalg_norm a = np_dot a a.
Proof. unfold np_linalg_norm. apply sqrt_sqrt, np_dot_nonneg. Qed.

Lemma np_linalg_norm_eq_0 (a : vec3) : np_linalg_norm a = 0 ↔ a = (0, 0, 0).
Proof.
  split.
  - intros Hn. pose proof (np_linalg_norm_sqr a) as Hs. rewrite Hn in Hs.
    destruct a as [[ax ay] az]. unfold np_dot in Hs.
    assert (ax = 0) by nra. assert (ay = 0) by nra. assert (az = 0) by nra.
    by subst.
  - intros ->. apply np_linalg_norm_zero.
Qed.

Lemma vec_sub_eq_0 (a b : vec3) : vec_sub a b = (0, 0, 0) ↔ a = b.
Proof.
  destruct a as [[ax ay] az], b as [[bx by_] bz]. simpl. split.
  - intros [= Hx Hy Hz]. repeat (apply pair_equal_spec; split); lra.
  - intros [= -> -> ->]. repeat (apply pair_equal_spec; split); lra.
Qed.



(** A quaternion that is not a unit quaternion is kept normalised. *)
Example make_camera_pose_normalises :
  rotation_quat (make_camera_pose 0 0 0 2 0 0 0) = (1, 0, - 0, - 0).
Proof.
  unfold make_camera_pose, quat_normalise. cbn.
  replace (2 * 2 + 0 * 0 + - 0 * - 0 + - 0 * - 0) with (2 * 2) by lra.
  rewrite sqrt_square by lra.
  repeat (apply pair_equal_spec; split); lra.
Qed.

(** X6. The length of a pose error is the Euclidean norm of its three
    components: it is not negative, its square is the sum of their
    squares, and it is zero exactly when the two poses are at the same
    location. *)
Theorem make_pose_error_length (estimated_pose reference_pose : Transform) :
  0 <= PoseError.length (make_pose_error estimated_pose reference_pose)
  ∧ PoseError.length (make_pose_error estimated_pose reference_pose)
    * PoseError.length (make_pose_error estimated_pose reference_pose)
    = PoseError.x (make_pose_error estimated_pose reference_pose)
      * PoseError.x (make_pose_error estimated_pose reference_pose)
      + PoseError.y (make_pose_error estimated_pose reference_pose)
        * PoseError.y (make_pose_error estimated_pose reference_pose)
      + PoseError.z (make_pose_error estimated_pose reference_pose)
        * PoseError.z (make_pose_error estimated_pose reference_pose)
  ∧ (PoseError.length (make_pose_error estimated_pose reference_pose) = 0
     ↔ location estimated_pose = location reference_pose).
Proof.
  unfold make_pose_error.
  cbn [PoseError.length PoseError.x PoseError.y PoseError.z].
  split; [apply np_linalg_norm_nonneg|]. split.
  - rewrite np_linalg_norm_sqr.
    by destruct (vec_sub (location estimated_pose) (location reference_pose))
      as [[ex ey] ez].
  - by rewrite np_linalg_norm_eq_0, vec_sub_eq_0.
Qed.

(** X7. Exchanging the estimate and the reference negates the three
    components of the translation error and keeps its length. *)
Theorem make_pose_error_swap (estimated_pose reference_pose : Transform) :
  PoseError.x (make_pose_error reference_pose estimated_pose)
  = - PoseError.x (make_pose_error estimated_pose reference_pose)
  ∧ PoseError.y (make_pose_error reference_pose estimated_pose)
    = - PoseError.y (make_pose_error estimated_pose reference_pose)
  ∧ PoseError.z (make_pose_error reference_pose estimated_pose)
    = - PoseError.z (make_pose_error estimated_pose reference_pose)
  ∧ PoseError.length (make_pose_error reference_pose estimated_pose)
    = PoseError.length (make_pose_error estimated_pose reference_pose).
Proof.
  unfold make_pose_error.
  cbn [PoseError.length PoseError.x PoseError.y PoseError.z].
  destruct (location estimated_pose) as [[ex ey] ez].
  destruct (location reference_pose) as [[rx ry] rz]. cbn.
  repeat split; try ring.
  unfold np_linalg_norm, np_dot. f_equal. ring.
Qed.

(** X8. A reference pose at the origin leaves the direction absent,
    wherever the estimate is. The trajectories that the loaders read put
    their first pose there. *)
Theorem make_pose_error_reference_at_origin
    (estimated_pose reference_pose : Transform) :
  location reference_pose = (0, 0, 0) →
  PoseError.direction (make_pose_error estimated_pose reference_pose) = None.
Proof.
  intros Hloc. unfold make_pose_error. cbn [PoseError.direction].
  rewrite Hloc, np_linalg_norm_zero, (positive_false 0) by lra.
  by destruct (positive _).
Qed.

Lemma make_pose_error_reference_at_origin_witness :
  location (make_camera_pose 0 0 0 1 0 0 0) = (0, 0, 0)
  ∧ PoseError.direction
      (make_pose_error demo_ahead (make_camera_pose 0 0 0 1 0 0 0)) = None.
Proof.
  assert (location (make_camera_pose 0 0 0 1 0 0 0) = (0, 0, 0)) as Hloc.
  { cbn. repeat (apply pair_equal_spec; split); lra. }
  split; [exact Hloc|].
  exact (make_pose_error_reference_at_origin demo_ahead _ Hloc).
Defined.

(** X9. An estimate that overshoots the reference location along the ray
    from the origin through it (the reference not being at the origin) has
    direction zero. *)
Theorem make_pose_error_direction_outward
    (estimated_pose reference_pose : Transform) (rx ry rz s : R) :
  location reference_pose = (rx, ry, rz) →
  location estimated_pose = (rx + s * rx, ry + s * ry, rz + s * rz) →
  0 < s →
  0 < np_linalg_norm (location reference_pose) →
  PoseError.direction (make_pose_error estimated_pose reference_pose) = Some 0.
Proof.
  intros Href Hest Hs Hn. unfold make_pose_error. cbn [PoseError.direction].
  rewrite Hest, Href in *. cbn [vec_sub].
  set (n := np_linalg_norm (rx, ry, rz)) in *.
  assert (n * n = rx * rx + ry * ry + rz * rz) as Hnn
    by apply (np_linalg_norm_sqr (rx, ry, rz)).
  assert (np_linalg_norm
            (rx + s * rx - rx, ry + s * ry - ry, rz + s * rz - rz) = s * n)
    as ->.
  { unfold np_linalg_norm, np_dot. fold n.
    replace ((rx + s * rx - rx) * (rx + s * rx - rx)
             + (ry + s * ry - ry) * (ry + s * ry - ry)
             + (rz + s * rz - rz) * (rz + s * rz - rz))
      with ((s * n) * (s * n)) by (rewrite <- !Rmult_assoc; nra).
    apply sqrt_square. nra. }
  rewrite (positive_true (s * n)) by nra.
  rewrite (positive_true n) by done.
  f_equal. cbn [vec_div np_dot].
  replace ((rx + s * rx - rx) / (s * n) * (rx / n)
           + (ry + s * ry - ry) / (s * n) * (ry / n)
           + (rz + s * rz - rz) / (s * n) * (rz / n))
    with ((rx * rx + ry * ry + rz * rz) / (n * n)) by (field; lra).
  rewrite <- Hnn.
  replace (n * n / (n * n)) with 1 by (field; lra).
  unfold Rmax, Rmin. repeat destruct Rle_dec; try lra; apply acos_1.
Qed.

Lemma make_pose_error_direction_outward_witness :
  location demo_ahead = (1, - 0, - 0)
  ∧ location (make_camera_pose (- (- 0 + 1 * - 0)) (- (- 0 + 1 * - 0))
                (1 + 1 * 1) 1 0 0 0)
    = (1 + 1 * 1, - 0 + 1 * - 0, - 0 + 1 * - 0)
  ∧ 0 < 1
  ∧ 0 < np_linalg_norm (location demo_ahead)
  ∧ PoseError.direction
      (make_pose_error
         (make_camera_pose (- (- 0 + 1 * - 0)) (- (- 0 + 1 * - 0))
            (1 + 1 * 1) 1 0 0 0)
         demo_ahead) = Some 0.
Proof.
  assert (location demo_ahead = (1, - 0, - 0)) as Href by reflexivity.
  assert (location (make_camera_pose (- (- 0 + 1 * - 0)) (- (- 0 + 1 * - 0))
                      (1 + 1 * 1) 1 0 0 0)
          = (1 + 1 * 1, - 0 + 1 * - 0, - 0 + 1 * - 0)) as Hest.
  { cbn. repeat (apply pair_equal_spec; split); lra. }
  assert (0 < 1) as Hs by lra.
  assert (0 < np_linalg_norm (location demo_ahead)) as Hn.
  { rewrite demo_ahead_norm. lra. }
  repeat (split; [assumption|]).
  exact (make_pose_error_direction_outward _ demo_ahead _ _ _ 1
           Href Hest Hs Hn).
Defined.

End pose_extras.

(** ** Searching for dataset folders *)

Section search_props.
Local Open Scope string_scope.
Variable fs : FileSystem.

Lemma elem_of_subdirectories (candidate_root p : string)
    (entries : list (string * bool)) :
  p ∈ subdirectories candidate_root entries →
  ∃ name, p = os_path_join candidate_root name
          ∧ (name, true) ∈ entries ∧ name ∉ excluded_folders.
Proof.
  unfold subdirectories.
  intros ([name is_dir] & -> & Hin)%list_elem_of_fmap.
  apply list_elem_of_filter in Hin as [[Hdir Hname] Hin]. simpl in *.
  subst is_dir. by exists name.
Qed.

Lemma find_files_loop_found (base_root : string) (fuel : nat)
    (to_search : gset string) (root p1 p2 p3 : string) :
  (∀ p, p ∈ to_search → searchable fs base_root p) →
  find_files_loop fs fuel to_search = Return (root, p1, p2, p3) →
  searchable fs base_root root
  ∧ isfile fs (os_path_join root "rgb.txt") = true
  ∧ isfile fs (os_path_join root "depth.txt") = true
  ∧ isfile fs (os_path_join root "groundtruth.txt") = true.
Proof.
  revert to_search. induction fuel as [|fuel IH]; intros to_search Hsearch;
    simpl; [discriminate|].
  destruct (elements to_search) as [|candidate_root rest] eqn:Hel;
    [discriminate|].
  assert (candidate_root ∈ to_search) as Hcand.
  { apply elem_of_elements. rewrite Hel. left. }
  destruct (isfile fs (os_path_join candidate_root "rgb.txt")) eqn:Hrgb;
    simpl.
  - destruct (isfile fs (os_path_join candidate_root "groundtruth.txt"))
      eqn:Hgt; simpl.
    + destruct (isfile fs (os_path_join candidate_root "depth.txt"))
        eqn:Hdepth; simpl.
      * intros [= <- <- <- <-]. split; [by apply Hsearch|done].
      * destruct (scandir fs candidate_root) as [entries|] eqn:Hscan;
          [|discriminate].
        apply IH. intros p [Hp|Hp]%elem_of_union; [apply Hsearch; set_solver|].
        apply elem_of_list_to_set, elem_of_subdirectories
          in Hp as (name & -> & Hin & Hname).
        eapply searchable_entry; eauto.
    + destruct (scandir fs candidate_root) as [entries|] eqn:Hscan;
        [|discriminate].
      apply IH. intros p [Hp|Hp]%elem_of_union; [apply Hsearch; set_solver|].
      apply elem_of_list_to_set, elem_of_subdirectories
        in Hp as (name & -> & Hin & Hname).
      eapply searchable_entry; eauto.
  - destruct (scandir fs candidate_root) as [entries|] eqn:Hscan;
      [|discriminate].
    apply IH. intros p [Hp|Hp]%elem_of_union; [apply Hsearch; set_solver|].
    apply elem_of_list_to_set, elem_of_subdirectories
      in Hp as (name & -> & Hin & Hname).
    eapply searchable_entry; eauto.
Qed.

Lemma find_files_found (fuel : nat) (base_root root p1 p2 p3 : string) :
  find_files fs fuel base_root = Return (root, p1, p2, p3) →
  searchable fs base_root root
  ∧ isfile fs (os_path_join root "rgb.txt") = true
  ∧ isfile fs (os_path_join root "depth.txt") = true
  ∧ isfile fs (os_path_join root "groundtruth.txt") = true.
Proof.
  apply find_files_loop_found. intros p ->%elem_of_singleton. constructor.
Qed.

Lemma find_roots_entry_good (fuel : nat) (candidate_root : string)
    (st : outcome (gset string * gmap string string)) (entry : string * bool)
    (to_search : gset string) (actual_roots : gmap string string) :
  (∀ to_search' actual_roots',
     st = Return (to_search', actual_roots') → good_roots fs actual_roots') →
  find_roots_entry fs fuel candidate_root st entry
  = Return (to_search, actual_roots) →
  good_roots fs actual_roots.
Proof.
  intros Hst. unfold find_roots_entry.
  destruct st as [[to_search' actual_roots']|e|]; [|discriminate..].
  specialize (Hst _ _ eq_refl).
  destruct entry as [dir_name is_dir]. simpl. destruct is_dir.
  - case_bool_decide as Hname.
    + destruct (find_files fs fuel (os_path_join candidate_root dir_name))
        as [[[[root p1] p2] p3]|[]|] eqn:Hfind; try discriminate.
      * intros [= <- <-]. simpl. intros name r.
        destruct (decide (dir_name = name)) as [->|Hne].
        -- rewrite lookup_insert_eq. intros [= <-].
           apply find_files_found in Hfind as (Hsearch & Hfiles).
           split; [done|]. split; [by exists candidate_root|done].
        -- rewrite lookup_insert_ne by done. apply Hst.
      * by intros [= <- <-].
    + by intros [= <- <-].
  - by intros [= <- <-].
Qed.

Lemma find_roots_entries_good (fuel : nat) (candidate_root : string)
    (entries : list (string * bool))
    (st : outcome (gset string * gmap string string))
    (to_search : gset string) (actual_roots : gmap string string) :
  (∀ to_search' actual_roots',
     st = Return (to_search', actual_roots') → good_roots fs actual_roots') →
  foldl (find_roots_entry fs fuel candidate_root) st entries
  = Return (to_search, actual_roots) →
  good_roots fs actual_roots.
Proof.
  revert st. induction entries as [|entry entries IH]; intros st Hst; simpl.
  - intros ->. by eapply Hst.
  - apply IH. intros to_search' actual_roots' Hstep.
    by eapply find_roots_entry_good.
Qed.

Lemma find_roots_loop_good (fuel : nat) (to_search : gset string)
    (actual_roots result : gmap string string) :
  good_roots fs actual_roots →
  find_roots_loop fs fuel to_search actual_roots = Return result →
  good_roots fs result.
Proof.
  revert to_search actual_roots.
  induction fuel as [|fuel IH]; intros to_search actual_roots Hgood; simpl;
    [discriminate|].
  destruct (elements to_search) as [|candidate_root rest];
    [by intros [= <-]|].
  destruct (scandir fs candidate_root) as [entries|]; [|discriminate].
  destruct (foldl (find_roots_entry fs fuel candidate_root)
              (Return (to_search ∖ {[candidate_root]}, actual_roots)) entries)
    as [[to_search' actual_roots']|e|] eqn:Hfold; [|discriminate..].
  apply IH. eapply find_roots_entries_good; [|exact Hfold].
  by intros ? ? [= <- <-].
Qed.

End search_props.

Example find_roots_demo :
  find_roots demo_downloads 5 "tum"
  = Return {[ "rgbd_dataset_freiburg1_xyz" := "tum/rgbd_dataset_freiburg1_xyz" ]}%string.
Proof. vm_compute. reflexivity. Qed.

Example find_files_demo_found :
  find_files demo_fs 5 "data"
  = Return ("data/seq", "data/seq/rgb.txt", "data/seq/depth.txt",
            "data/seq/groundtruth.txt")%string.
Proof. vm_compute. reflexivity. Qed.

(** X10. The folder that [find_files] returns holds the three files
    [rgb.txt], [depth.txt] and [groundtruth.txt], and it is the base folder
    or is reached from it through directories none of which is called
    [depth], [rgb] or [__MACOSX]. *)
Theorem find_files_returns_complete_folder (fs : FileSystem) (fuel : nat)
    (base_root root p1 p2 p3 : string) :
  find_files fs fuel base_root = Return (root, p1, p2, p3) →
  searchable fs base_root root
  ∧ isfile fs (os_path_join root "rgb.txt") = true
  ∧ isfile fs (os_path_join root "depth.txt") = true
  ∧ isfile fs (os_path_join root "groundtruth.txt") = true.
Proof. apply find_files_found. Qed.

Lemma find_files_returns_complete_folder_witness :
  find_files demo_fs 5 "data"
  = Return ("data/seq", "data/seq/rgb.txt", "data/seq/depth.txt",
            "data/seq/groundtruth.txt")%string
  ∧ searchable demo_fs "data" "data/seq"
  ∧ isfile demo_fs (os_path_join "data/seq" "rgb.txt") = true.
Proof.
  split; [exact find_files_demo_found|].
  destruct (find_files_returns_complete_folder demo_fs 5 "data" _ _ _ _
              find_files_demo_found) as (Hsearch & Hrgb & _).
  split; [exact Hsearch|exact Hrgb].
Defined.

(** X11. Every entry of the result of [find_roots] is keyed by a name of
    [dataset_names], and its value is a folder that holds the three files
    of a sequence and was found by [find_files] from a directory of that
    name; a dataset folder under which no such folder exists gets no
    entry. *)
Theorem find_roots_entries_are_datasets (fs : FileSystem) (fuel : nat)
    (root : string) (actual_roots : gmap string string)
    (name actual_root : string) :
  find_roots fs fuel root = Return actual_roots →
  actual_roots !! name = Some actual_root →
  name ∈ dataset_names
  ∧ (∃ parent, searchable fs (os_path_join parent name) actual_root)
  ∧ isfile fs (os_path_join actual_root "rgb.txt") = true
  ∧ isfile fs (os_path_join actual_root "depth.txt") = true
  ∧ isfile fs (os_path_join actual_root "groundtruth.txt") = true.
Proof.
  intros Hfind Hname.
  apply (find_roots_loop_good fs fuel {[ root ]} ∅ actual_roots) in Hfind.
  - by apply Hfind.
  - intros ? ?. by rewrite lookup_empty.
Qed.

Lemma find_roots_entries_are_datasets_witness :
  find_roots demo_downloads 5 "tum"
  = Return {[ "rgbd_dataset_freiburg1_xyz" := "tum/rgbd_dataset_freiburg1_xyz" ]}%string
  ∧ ({[ "rgbd_dataset_freiburg1_xyz" := "tum/rgbd_dataset_freiburg1_xyz" ]}%string
       : gmap string string) !! "rgbd_dataset_freiburg1_xyz"%string
    = Some "tum/rgbd_dataset_freiburg1_xyz"%string
  ∧ "rgbd_dataset_freiburg1_xyz"%string ∈ dataset_names.
Proof.
  assert (({[ "rgbd_dataset_freiburg1_xyz" := "tum/rgbd_dataset_freiburg1_xyz" ]}%string
             : gmap string string) !! "rgbd_dataset_freiburg1_xyz"%string
          = Some "tum/rgbd_dataset_freiburg1_xyz"%string) as Hlookup
    by reflexivity.
  split; [exact find_roots_demo|]. split; [exact Hlookup|].
  exact (proj1 (find_roots_entries_are_datasets demo_downloads 5 "tum" _ _ _
                  find_roots_demo Hlookup)).
Defined.

(** ** The rows of [get_results] *)

Section get_results_rows.
Context {Value : Type}.
Variable nan : Value.
Variable np : np_func → list Value → Value.
Local Open Scope string_scope.
Implicit Types (fe : FrameError (Value := Value))
  (te : TrialErrors (Value := Value)).

Lemma name_determines_entry
    (func func' : string * np_func)
    (value value' : string * (TrialErrors (Value := Value) → list Value)) :
  func ∈ funcs → func' ∈ funcs → value ∈ values → value' ∈ values →
  func.1 +:+ "_" +:+ value.1 = func'.1 +:+ "_" +:+ value'.1 →
  func = func' ∧ value = value'.
Proof.
  unfold funcs, values. rewrite !elem_of_cons, !elem_of_nil.
  intros Hf Hf' Hv Hv'.
  destruct Hf as [->|[->|[->|[->|[->|[]]]]]];
  destruct Hf' as [->|[->|[->|[->|[->|[]]]]]];
  destruct Hv as [->|[->|[->|[->|[->|[->|[]]]]]]];
  destruct Hv' as [->|[->|[->|[->|[->|[->|[]]]]]]];
  simpl; intros Heq; first [discriminate Heq | done].
Qed.

Lemma compute_columns_cons
    (entry : string * np_func * (TrialErrors → list Value))
    (to_compute : list (string * np_func * (TrialErrors → list Value)))
    te (other_properties : gmap string Value) :
  compute_columns nan np (entry :: to_compute) te other_properties
  = compute_columns nan np to_compute te
      (<[ entry.1.1 :=
            if bool_decide (0 < length (entry.2 te))%nat
            then np entry.1.2 (entry.2 te) else nan ]> other_properties).
Proof. reflexivity. Qed.

Lemma compute_columns_value
    (to_compute : list (string * np_func * (TrialErrors → list Value)))
    te (other_properties : gmap string Value)
    (name : string) (func : np_func) (attribute : TrialErrors → list Value) :
  (name, func, attribute) ∈ to_compute →
  (∀ func' attribute', (name, func', attribute') ∈ to_compute →
     func' = func ∧ attribute' = attribute) →
  compute_columns nan np to_compute te other_properties !! name
  = Some (if bool_decide (0 < length (attribute te))%nat
          then np func (attribute te) else nan).
Proof.
  revert other_properties.
  induction to_compute as [|entry to_compute IH]; intros props Hin Hsame.
  - by apply elem_of_nil in Hin.
  - rewrite compute_columns_cons.
    destruct (decide (name ∈ to_compute.*1.*1)) as [Hlater|Hlater].
    + apply list_elem_of_fmap in Hlater as (e1 & Hname & Hlater).
      apply list_elem_of_fmap in Hlater as ([[n f] a] & He1 & Hlater).
      subst e1. simpl in Hname. subst n.
      destruct (Hsame f a) as [-> ->]; [by right|].
      apply IH; [done|]. intros func' attribute' Hin'. apply Hsame. by right.
    + apply elem_of_cons in Hin as [<-|Hin].
      * rewrite (compute_columns_other nan np) by done.
        apply lookup_insert_eq.
      * destruct Hlater. apply list_elem_of_fmap. exists (name, func).
        split; [done|]. apply list_elem_of_fmap.
        by exists (name, func, attribute).
Qed.

Lemma requested_aggregate_value (columns : gset string)
    te (other_properties : gmap string Value)
    (func : string * np_func) (value : string * (TrialErrors → list Value)) :
  func ∈ funcs → value ∈ values →
  func.1 +:+ "_" +:+ value.1 ∈ columns →
  compute_columns nan np (columns_to_compute columns) te other_properties
    !! (func.1 +:+ "_" +:+ value.1)
  = Some (if bool_decide (0 < length (value.2 te))%nat
          then np func.2 (value.2 te) else nan).
Proof.
  intros Hfunc Hvalue Hin. apply compute_columns_value.
  - apply elem_of_columns_to_compute. by exists value, func.
  - intros func' attribute'
      (value' & func'' & Hv' & Hf' & _ & Heq)%elem_of_columns_to_compute.
    injection Heq as Hname -> ->.
    by destruct (name_determines_entry func func'' value value') as [-> ->].
Qed.

Lemma restrict_lookup (columns : gset string) (d : gmap string Value)
    (name : string) :
  restrict columns d !! name
  = if bool_decide (name ∈ columns) then d !! name else None.
Proof.
  unfold restrict. case_bool_decide as Hin.
  - destruct (d !! name) as [v|] eqn:Hv.
    + by apply map_lookup_filter_Some.
    + apply map_lookup_filter_None. left. done.
  - apply map_lookup_filter_None. right. intros v _. done.
Qed.

Lemma get_properties_lookup fe (columns : gset string)
    (other_properties : gmap string Value) (name : string) :
  get_properties fe columns other_properties !! name
  = if bool_decide (name ∈ columns) then
      match column_values fe !! name with
      | Some v => Some v
      | None =>
          match system_properties fe !! name with
          | Some v => Some v
          | None =>
              match image_properties fe !! name with
              | Some v => Some v
              | None => other_properties !! name
              end
          end
      end
    else other_properties !! name.
Proof.
  unfold get_properties. cbv zeta.
  rewrite !lookup_union, !restrict_lookup. case_bool_decide.
  - destruct (column_values fe !! name), (system_properties fe !! name),
      (image_properties fe !! name), (other_properties !! name); done.
  - destruct (other_properties !! name); done.
Qed.

Lemma get_properties_not_own fe (columns : gset string)
    (other_properties : gmap string Value) (name : string) :
  name ∉ frame_error_get_columns fe →
  get_properties fe columns other_properties !! name
  = other_properties !! name.
Proof.
  intros Hname. rewrite get_properties_lookup.
  unfold frame_error_get_columns in Hname.
  rewrite !not_elem_of_union, !not_elem_of_dom in Hname.
  destruct Hname as [[-> ->] ->]. by case_bool_decide.
Qed.

Lemma get_results_loop_rows (columns : gset string)
    (trials : list TrialErrors)
    (st : gmap string Value * list (gmap string Value)) :
  ∃ rows,
    (foldl (λ (st : gmap string Value * list (gmap string Value))
              (trial_errors : TrialErrors),
              let other_properties :=
                compute_columns nan np (columns_to_compute columns)
                  trial_errors st.1 in
              (other_properties,
               (st.2 ++ ((λ frame_error : FrameError,
                            get_properties frame_error columns other_properties)
                           <$> frame_errors trial_errors))%list))
           st trials).2 = (st.2 ++ rows)%list
    ∧ Forall2 (λ fe (d : gmap string Value),
                 ∃ te other,
                   te ∈ trials ∧ fe ∈ frame_errors te
                   ∧ (∀ name,
                        name ∉ (columns_to_compute (Value := Value)
                                  columns).*1.*1 →
                        other !! name = st.1 !! name)
                   ∧ d = get_properties fe columns
                           (compute_columns nan np
                              (columns_to_compute columns) te other))
              (all_frame_errors trials) rows.
Proof.
  revert st. induction trials as [|te trials IH]; intros st.
  - exists []. simpl. rewrite app_nil_r. split; [done|constructor].
  - simpl.
    destruct (IH (compute_columns nan np (columns_to_compute columns) te st.1,
                  (st.2 ++ ((λ frame_error : FrameError,
                               get_properties frame_error columns
                                 (compute_columns nan np
                                    (columns_to_compute columns) te st.1))
                              <$> frame_errors te))%list))
      as (rows & Hrows & Hall).
    exists (((λ frame_error : FrameError,
                get_properties frame_error columns
                  (compute_columns nan np (columns_to_compute columns) te st.1))
               <$> frame_errors te) ++ rows)%list.
    split.
    + etransitivity; [exact Hrows|]. simpl. by rewrite <- app_assoc.
    + unfold all_frame_errors in *. cbn [mbind list_bind].
      apply Forall2_app.
      * apply Forall2_fmap_r, Forall2_same_length_lookup_2; [done|].
        intros i fe fe' Hfe Hfe'. simplify_eq.
        exists te, st.1. split; [left|]. split; [|done].
        by eapply list_elem_of_lookup_2.
      * eapply Forall2_impl; [exact Hall|].
        intros fe d (te' & other & Hte & Hfe & Hother & ->).
        exists te', other. split; [by right|]. split; [done|].
        split; [|done]. intros name Hname. rewrite Hother by done.
        simpl. by apply compute_columns_other.
Qed.

Lemma get_results_rows (self : FrameErrorResult)
    (columns : option (gset string)) :
  Forall2 (λ fe (d : gmap string Value),
             ∃ te other,
               te ∈ errors self ∧ fe ∈ frame_errors te
               ∧ (∀ name,
                    name ∉ (columns_to_compute (Value := Value)
                              (default (get_columns self) columns)).*1.*1 →
                    other !! name
                    = (restrict (default (get_columns self) columns)
                         (metric_properties self)
                       ∪ restrict (default (get_columns self) columns)
                           (image_source_properties self)) !! name)
               ∧ d = get_properties fe (default (get_columns self) columns)
                       (compute_columns nan np
                          (columns_to_compute
                             (default (get_columns self) columns)) te other))
          (all_frame_errors (errors self))
          (get_results nan np self columns).
Proof.
  destruct (get_results_loop_rows (default (get_columns self) columns)
              (errors self)
              (restrict (default (get_columns self) columns)
                 (metric_properties self)
               ∪ restrict (default (get_columns self) columns)
                   (image_source_properties self), []))
    as (rows & Heq & Hrows).
  assert (get_results nan np self columns = rows) as -> by exact Heq.
  exact Hrows.
Qed.

End get_results_rows.
(** C8. The aggregates that [get_results] computes are those of
    [columns_to_compute]: their names are exactly the requested names of
    the form [<func>_<series>]. The loop over one trial writes under each
    of these names the numpy aggregate [func] of that series of the trial,
    or NaN when the series is empty, and leaves every other entry of
    [other_properties] as it was. In the result, the row of a frame error
    holds under a requested name [<func>_<series>] that is not a column of
    the frame error itself this aggregate of the trial of the frame error,
    and it holds nothing under a name that was not requested: no row has a
    key that was not requested. With no columns given, the requested names
    are those of [get_columns]. *)
Theorem get_results_computes_requested {Value : Type} (nan : Value)
    (np : np_func → list Value → Value)
    (self : FrameErrorResult) (columns : option (gset string))
    (name : string) :
  (name ∈ (columns_to_compute (Value := Value)
             (default (get_columns self) columns)).*1.*1
   ↔ name ∈ default (get_columns self) columns ∧ aggregate_name name)
  ∧ (∀ (trial_errors : TrialErrors) (other_properties : gmap string Value),
       (name ∈ default (get_columns self) columns ∧ aggregate_name name →
        is_Some (compute_columns nan np
                   (columns_to_compute (default (get_columns self) columns))
                   trial_errors other_properties !! name))
       ∧ (∀ (func : string * np_func)
            (value : string * (TrialErrors → list Value)),
            func ∈ funcs → value ∈ values →
            name = (func.1 +:+ "_" +:+ value.1)%string →
            name ∈ default (get_columns self) columns →
            compute_columns nan np
              (columns_to_compute (default (get_columns self) columns))
              trial_errors other_properties !! name
            = Some (if bool_decide (0 < length (value.2 trial_errors))%nat
                    then np func.2 (value.2 trial_errors) else nan))
       ∧ (¬ (name ∈ default (get_columns self) columns ∧ aggregate_name name) →
          compute_columns nan np
            (columns_to_compute (default (get_columns self) columns))
            trial_errors other_properties !! name
          = other_properties !! name))
  ∧ Forall (λ d : gmap string Value,
              dom d ⊆ default (get_columns self) columns)
      (get_results nan np self columns)
  ∧ Forall2 (λ (fe : FrameError) (d : gmap string Value),
               ∃ te : TrialErrors,
                 te ∈ errors self ∧ fe ∈ frame_errors te
                 ∧ (∀ (func : string * np_func)
                      (value : string * (TrialErrors → list Value)),
                      func ∈ funcs → value ∈ values →
                      name = (func.1 +:+ "_" +:+ value.1)%string →
                      name ∈ default (get_columns self) columns →
                      name ∉ frame_error_get_columns fe →
                      d !! name
                      = Some (if bool_decide (0 < length (value.2 te))%nat
                              then np func.2 (value.2 te) else nan))
                 ∧ (name ∉ default (get_columns self) columns →
                    d !! name = None))
      (all_frame_errors (errors self))
      (get_results nan np self columns).
Proof.
  split; [apply (computed_names (Value := Value))|].
  split; [|split].
  - intros trial_errors other_properties. split; [|split].
    + intros Hname. apply (computed_names (Value := Value)) in Hname.
      apply elem_of_dom.
      rewrite compute_columns_dom. apply elem_of_union_r.
      by apply elem_of_list_to_set.
    + intros func value Hfunc Hvalue -> Hin.
      by apply requested_aggregate_value.
    + intros Hname. apply compute_columns_other.
      by rewrite (computed_names (Value := Value)).
  - unfold get_results. cbv zeta. apply get_results_loop_dom; [|done].
    simpl. rewrite dom_union_L.
    pose proof (restrict_dom (default (get_columns self) columns)
                  (metric_properties self)).
    pose proof (restrict_dom (default (get_columns self) columns)
                  (image_source_properties self)).
    set_solver.
  - eapply Forall2_impl; [apply (get_results_rows nan np self columns)|].
    intros fe d (te & other & Hte & Hfe & Hother & ->).
    exists te. split; [done|]. split; [done|]. split.
    + intros func value Hfunc Hvalue -> Hin Hown.
      rewrite get_properties_not_own by done.
      by apply requested_aggregate_value.
    + intros Hout.
      assert (name ∉ (columns_to_compute (Value := Value)
                        (default (get_columns self) columns)).*1.*1) as Hname.
      { rewrite (computed_names (Value := Value)). tauto. }
      rewrite get_properties_lookup, bool_decide_eq_false_2 by done.
      rewrite (compute_columns_other nan np) by done.
      rewrite Hother by done.
      rewrite lookup_union, !restrict_lookup, !bool_decide_eq_false_2 by done.
      done.
Qed.


(** X12. [get_results] returns one row per frame error, trial after trial
    and in the order of the frame errors. The row of a frame error carries
    the aggregates of the trial that the frame error belongs to, not those
    of an earlier trial: under each requested name [<func>_<series>] that
    is not a column of the frame error itself, the row holds the aggregate
    [func] of that series of its own trial, or NaN when the series is
    empty. *)
Theorem get_results_rows_of_own_trial {Value : Type} (nan : Value)
    (np : np_func → list Value → Value)
    (self : FrameErrorResult) (columns : option (gset string)) :
  Forall2 (λ (fe : FrameError) (d : gmap string Value),
             ∃ te : TrialErrors,
               te ∈ errors self ∧ fe ∈ frame_errors te
               ∧ ∀ (func : string * np_func)
                   (value : string * (TrialErrors → list Value)),
                   func ∈ funcs → value ∈ values →
                   (func.1 +:+ "_" +:+ value.1)%string
                     ∈ default (get_columns self) columns →
                   (func.1 +:+ "_" +:+ value.1)%string
                     ∉ frame_error_get_columns fe →
                   d !! (func.1 +:+ "_" +:+ value.1)%string
                   = Some (if bool_decide (0 < length (value.2 te))%nat
                           then np func.2 (value.2 te) else nan))
          (all_frame_errors (errors self))
          (get_results nan np self columns).
Proof.
  eapply Forall2_impl; [apply (get_results_rows nan np self columns)|].
  intros fe d (te & other & Hte & Hfe & Hother & ->).
  exists te. split; [done|]. split; [done|].
  intros func value Hfunc Hvalue Hin Hown.
  rewrite get_properties_not_own by done.
  by apply requested_aggregate_value.
Qed.

(** X13. [get_columns] lists every name of the form [<func>_<series>]
    that [get_results] knows how to compute, so that a call of
    [get_results] without columns computes all thirty aggregates. *)
Theorem get_results_default_computes_all {Value : Type}
    (self : FrameErrorResult (Value := Value)) (name : string) :
  aggregate_name name →
  name ∈ get_columns self
  ∧ name ∈ (columns_to_compute (Value := Value)
              (default (get_columns self) None)).*1.*1.
Proof.
  intros Hname.
  assert (name ∈ get_columns self) as Hin.
  { destruct Hname as (func_name & col_name & Hfunc & Hcol & ->).
    unfold get_columns. cbv zeta. do 3 apply elem_of_union_l.
    apply elem_of_list_to_set, list_elem_of_bind.
    exists func_name. split; [|done]. apply list_elem_of_bind.
    exists col_name. split; [|done]. by apply list_elem_of_singleton. }
  split; [done|]. simpl. by apply (computed_names (Value := Value)).
Qed.

Lemma get_results_default_computes_all_witness :
  aggregate_name "std_distance_found"
  ∧ "std_distance_found"%string
    ∈ (columns_to_compute (Value := Z)
         (default (get_columns (mkFrameErrorResult (Value := Z) [] ∅ ∅ [])) None)).*1.*1.
Proof.
  assert (aggregate_name "std_distance_found") as Hname.
  { exists "std"%string, "distance_found"%string.
    split; [|split; [|reflexivity]].
    - do 4 right. left.
    - do 5 right. left. }
  split; [exact Hname|].
  exact (proj2 (get_results_default_computes_all
                  (mkFrameErrorResult (Value := Z) [] ∅ ∅ []) _ Hname)).
Defined.

(** X14. In the properties of a frame error its own columns win over its
    system properties, those over its image properties, and those over
    [other_properties]; a column that was not requested shows whatever
    [other_properties] has under it, so [other_properties] passes through
    unfiltered. Without arguments the keys are exactly those of
    [get_columns]. *)
Theorem frame_error_get_properties_precedence {Value : Type}
    (self : FrameError (Value := Value)) (columns : option (gset string))
    (other_properties : option (gmap string Value)) (name : string) :
  frame_error_get_properties self columns other_properties !! name
  = (if bool_decide
          (name ∈ default (frame_error_get_columns self) columns) then
       match column_values self !! name with
       | Some v => Some v
       | None =>
           match system_properties self !! name with
           | Some v => Some v
           | None =>
               match image_properties self !! name with
               | Some v => Some v
               | None => default ∅ other_properties !! name
               end
           end
       end
     else default ∅ other_properties !! name)
  ∧ dom (frame_error_get_properties self None None)
    = frame_error_get_columns self.
Proof.
  unfold frame_error_get_properties. cbv zeta.
  split; [apply get_properties_lookup|].
  apply set_eq. intros k. simpl. split.
  - intros [v Hv]%elem_of_dom. rewrite get_properties_lookup in Hv.
    case_bool_decide as Hk; [done|]. by rewrite lookup_empty in Hv.
  - intros Hk. apply elem_of_dom. rewrite get_properties_lookup.
    rewrite bool_decide_eq_true_2 by done.
    unfold frame_error_get_columns in Hk.
    rewrite !elem_of_union, !elem_of_dom in Hk.
    destruct (column_values self !! k), (system_properties self !! k),
      (image_properties self !! k); try (by eauto).
    destruct Hk as [[[? ?]|[? ?]]|[? ?]]; done.
Qed.

(** X15. A result made by [make_frame_error_result] remembers the columns
    of all its frame errors: the rows that [get_results] returns for it
    when no columns are given have every column of their frame error, with
    the value the frame error has in its own column list. *)
Theorem make_frame_error_result_keeps_columns {Value : Type} (nan : Value)
    (np : np_func → list Value → Value) (json_value : Value → Value)
    (metric_properties : gmap string Value)
    (trial_results : list (gmap string Value))
    (errors : list TrialErrors) (result : FrameErrorResult) :
  make_frame_error_result json_value metric_properties trial_results errors
  = Some result →
  Forall2 (λ (fe : FrameError) (d : gmap string Value),
             frame_error_get_columns fe ⊆ dom d
             ∧ ∀ name v, column_values fe !! name = Some v →
                         d !! name = Some v)
          (all_frame_errors errors) (get_results nan np result None).
Proof.
  unfold make_frame_error_result.
  destruct (trial_results !! 0%nat) as [image_source_properties|]; simpl;
    [|discriminate].
  intros [= <-].
  set (result := {| errors := errors |}).
  assert (∀ fe, fe ∈ all_frame_errors errors →
                frame_error_get_columns fe ⊆ get_columns result) as Hcols.
  { intros fe Hfe name Hname. unfold get_columns. cbv zeta.
    apply elem_of_union_r, elem_of_list_to_set. simpl.
    apply elem_of_elements, elem_of_union_list.
    exists (frame_error_get_columns fe). split; [|done].
    by apply list_elem_of_fmap_2. }
  eapply Forall2_impl; [apply (get_results_rows nan np result None)|].
  intros fe d (te & other & Hte & Hfe & Hother & ->).
  assert (fe ∈ all_frame_errors errors) as Hall.
  { apply list_elem_of_bind. by exists te. }
  specialize (Hcols fe Hall). split.
  - intros name Hname. apply elem_of_dom. rewrite get_properties_lookup.
    rewrite bool_decide_eq_true_2 by (by apply Hcols).
    unfold frame_error_get_columns in Hname.
    rewrite !elem_of_union, !elem_of_dom in Hname.
    destruct (column_values fe !! name), (system_properties fe !! name),
      (image_properties fe !! name); try (by eauto).
    destruct Hname as [[[? ?]|[? ?]]|[? ?]]; done.
  - intros name v Hv. rewrite get_properties_lookup.
    rewrite bool_decide_eq_true_2; [by rewrite Hv|].
    apply Hcols. unfold frame_error_get_columns.
    do 2 apply elem_of_union_l. apply elem_of_dom. by eexists.
Qed.

Lemma make_frame_error_result_keeps_columns_witness :
  ∃ result : FrameErrorResult,
    make_frame_error_result (λ v : demo_value, v) ∅ [∅] [demo_trial_errors]
    = Some result
    ∧ Forall2 (λ (fe : FrameError) (d : gmap string demo_value),
                 frame_error_get_columns fe ⊆ dom d
                 ∧ ∀ name v, column_values fe !! name = Some v →
                             d !! name = Some v)
        (all_frame_errors [demo_trial_errors])
        (get_results NaN demo_np result None).
Proof.
  eexists. split; [reflexivity|].
  exact (make_frame_error_result_keeps_columns NaN demo_np (λ v : demo_value, v)
           ∅ [∅] [demo_trial_errors] _ eq_refl).
Defined.

Example get_results_demo :
  (λ d : gmap string demo_value,
     (d !! "timestamp"%string, d !! "min_frames_lost"%string,
      d !! "max_times_lost"%string, d !! "mean_speed"%string))
    <$> get_results NaN demo_np
          (mkFrameErrorResult [demo_trial_errors] ∅ ∅ []) 
          (Some {[ "timestamp"; "min_frames_lost"; "max_times_lost" ]}%string)
  = [(Some (Num 3), Some (Agg np_min [2; 5]%Z), Some NaN, None)].
Proof. vm_compute. reflexivity. Qed.

(** X20. Under a requested name that is neither a column of the frame
    error nor of the form [<func>_<series>], a row of [get_results] holds
    the property of the metric of that name, or else that of the image
    source: the metric wins over the image source, and no trial changes
    either. *)
Theorem get_results_rows_properties {Value : Type} (nan : Value)
    (np : np_func → list Value → Value)
    (self : FrameErrorResult) (columns : option (gset string)) :
  Forall2 (λ (fe : FrameError) (d : gmap string Value),
             ∀ name : string,
               name ∈ default (get_columns self) columns →
               name ∉ frame_error_get_columns fe →
               ¬ aggregate_name name →
               d !! name
               = match metric_properties self !! name with
                 | Some v => Some v
                 | None => image_source_properties self !! name
                 end)
          (all_frame_errors (errors self))
          (get_results nan np self columns).
Proof.
  eapply Forall2_impl; [apply (get_results_rows nan np self columns)|].
  intros fe d (te & other & Hte & Hfe & Hother & ->).
  intros name Hin Hown Hagg.
  assert (name ∉ (columns_to_compute (Value := Value)
                    (default (get_columns self) columns)).*1.*1) as Hname.
  { rewrite (computed_names (Value := Value)). tauto. }
  rewrite get_properties_not_own by done.
  rewrite (compute_columns_other nan np) by done.
  rewrite Hother by done.
  rewrite lookup_union, !restrict_lookup, !bool_decide_eq_true_2 by done.
  by destruct (metric_properties self !! name),
    (image_source_properties self !! name).
Qed.

(** ** The camera of a TUM sequence *)

Section intrinsics_props.
Local Open Scope string_scope.

Lemma lower_app (a b : string) : lower (a +:+ b) = lower a +:+ lower b.
Proof. induction a as [|c a IH]; simpl; [done|]. by rewrite IH. Qed.

Lemma prefix_app (s t : string) : String.prefix s (s +:+ t) = true.
Proof.
  induction s as [|c s IH]; simpl; [by destruct t|].
  destruct (ascii_dec c c) as [_|Hne]; [exact IH|by destruct Hne].
Qed.

Lemma contains_unfold (sub s : string) :
  contains sub s
  = String.prefix sub s
    || match s with
       | EmptyString => false
       | String _ s => contains sub s
       end.
Proof. by destruct s. Qed.

Lemma contains_here (sub t : string) : contains sub (sub +:+ t) = true.
Proof. by rewrite contains_unfold, prefix_app. Qed.

Lemma contains_app (sub a t : string) :
  contains sub (a +:+ sub +:+ t) = true.
Proof.
  induction a as [|c a IH].
  - apply (contains_here sub t).
  - rewrite contains_unfold.
    change (String c a +:+ sub +:+ t) with (String c (a +:+ sub +:+ t)).
    cbv iota. rewrite IH. apply orb_true_r.
Qed.

Example get_camera_intrinsics_demo :
  get_camera_intrinsics "/data/tum/rgbd_dataset_freiburg3_teddy"
  = freiburg3_intrinsics
  ∧ get_camera_intrinsics "/data/tum/RGBD_DATASET_FREIBURG2_XYZ"
    = freiburg2_intrinsics
  ∧ get_camera_intrinsics "/data/kitti/00" = default_intrinsics.
Proof. vm_compute. done. Qed.

(** X16. A path that has [freiburg1] somewhere, in any mix of capital and
    small letters, gets the calibration of the first camera, whatever
    comes before and after: the folder of a [freiburg2] or [freiburg3]
    sequence that lies under such a path is given the wrong camera. *)
Theorem get_camera_intrinsics_freiburg1_anywhere (before name after : string) :
  lower name = "freiburg1" →
  get_camera_intrinsics (before +:+ name +:+ after) = freiburg1_intrinsics.
Proof.
  intros Hname. unfold get_camera_intrinsics. cbv zeta.
  rewrite !lower_app, Hname. by rewrite contains_app.
Qed.

Lemma get_camera_intrinsics_freiburg1_anywhere_witness :
  lower "Freiburg1" = "freiburg1"
  ∧ get_camera_intrinsics
      ("/data/" +:+ "Freiburg1" +:+ "_old/rgbd_dataset_freiburg2_xyz")
    = freiburg1_intrinsics.
Proof.
  assert (lower "Freiburg1" = "freiburg1") as Hname by reflexivity.
  split; [exact Hname|].
  exact (get_camera_intrinsics_freiburg1_anywhere "/data/" "Freiburg1"
           "_old/rgbd_dataset_freiburg2_xyz" Hname).
Defined.

End intrinsics_props.

(** ** The metadata of a EuRoC import *)

Example euroc_import_metadata_demo :
  euroc_import_metadata greedy_associate demo_read_image_filenames
    demo_read_trajectory demo_mav0 "mav0"
  = Some (Some [(1, [10; 10; 23]); (5, [50; 50; 53])]%Z).
Proof. vm_compute. reflexivity. Qed.

(** X17. [import_dataset] of the EuRoC loader returns [None] unless the
    folder and its five files exist, [cam1/data.csv] among them; yet it
    reads the file names of the right images from [cam0/data.csv], the
    file of the left images. With a matcher that pairs that series with
    itself key by key, every associated row has the same file name for
    the left and for the right image. *)
Theorem euroc_import_right_is_left {V : Type}
    (associate : gmap Z V → gmap Z V → Z → Z → list (Z * Z))
    (read_image_filenames read_trajectory : string → gmap Z V)
    (fs : FileSystem) (root_folder : string) (rows : list (row V)) :
  euroc_import_metadata associate read_image_filenames read_trajectory
    fs root_folder = Some (Some rows) →
  (∀ a b : Z,
     (a, b) ∈ associate
                (read_image_filenames
                   (os_path_join (os_path_join root_folder "cam0") "data.csv"))
                (read_image_filenames
                   (os_path_join (os_path_join root_folder "cam0") "data.csv"))
                0%Z 3%Z → a = b) →
  isdir fs root_folder = true
  ∧ isfile fs (os_path_join (os_path_join root_folder "cam1") "data.csv") = true
  ∧ Forall (λ r : row V,
              ∃ image_file robot_pose : V,
                r.2 = [image_file; image_file; robot_pose]) rows.
Proof.
  unfold euroc_import_metadata.
  destruct (isdir fs root_folder); simpl; [|discriminate].
  set (m := read_image_filenames
              (os_path_join (os_path_join root_folder "cam0") "data.csv")).
  set (traj := read_trajectory _).
  destruct (isfile fs (os_path_join (os_path_join root_folder "cam1")
                         "data.csv")); simpl;
    [|rewrite !orb_true_r; simpl; try discriminate;
      destruct (negb _ || negb _); discriminate].
  destruct (negb _ || negb _ || false || negb _ || negb _); [discriminate|].
  destruct (associate_data associate 3 m [m; traj]) as [rows'|] eqn:Hrows;
    simpl; [|discriminate].
  intros [= ->] Hsame. split; [done|]. split; [done|].
  apply associate_data_inv in Hrows
    as (keys & maps & _ & (_ & _ & _ & Hpay) & Hmaps).
  eapply Forall_impl; [exact Hpay|]. intros [k payloads] Hr.
  unfold row_payloads in Hr. simpl in *.
  apply Forall2_cons_inv_l in Hr as (x0 & vs & Hx0 & Hvs & ->).
  destruct (bool_decide (dom m = dom m) && _).
  - rewrite Hmaps in Hvs.
    apply Forall2_cons_inv_l in Hvs as (x1 & vs1 & Hx1 & Hvs & ->).
    apply Forall2_cons_inv_l in Hvs as (x2 & vs2 & Hx2 & Hvs & ->).
    apply Forall2_nil_inv_l in Hvs as ->.
    exists x0, x2. congruence.
  - apply Forall2_cons_inv_l in Hmaps as (rm1 & maps1 & Hrm1 & Hmaps & ->).
    apply Forall2_cons_inv_l in Hmaps as (rm2 & maps2 & Hrm2 & Hmaps & ->).
    apply Forall2_nil_inv_l in Hmaps as ->.
    apply Forall2_cons_inv_l in Hvs as (x1 & vs1 & Hx1 & Hvs & ->).
    apply Forall2_cons_inv_l in Hvs as (x2 & vs2 & Hx2 & Hvs & ->).
    apply Forall2_nil_inv_l in Hvs as ->.
    exists x0, x2. destruct (Hrm1 k x1 Hx1) as (b & Hin & Hb).
    apply Hsame in Hin as <-. congruence.
Qed.

Lemma euroc_import_right_is_left_witness :
  euroc_import_metadata greedy_associate demo_read_image_filenames
    demo_read_trajectory demo_mav0 "mav0"
  = Some (Some [(1, [10; 10; 23]); (5, [50; 50; 53])]%Z)
  ∧ isfile demo_mav0
      (os_path_join (os_path_join "mav0" "cam1") "data.csv") = true
  ∧ Forall (λ r : row Z,
              ∃ image_file robot_pose : Z,
                r.2 = [image_file; image_file; robot_pose])
      [(1, [10; 10; 23]); (5, [50; 50; 53])]%Z.
Proof.
  split; [exact euroc_import_metadata_demo|].
  refine (proj2 (euroc_import_right_is_left greedy_associate
                   demo_read_image_filenames demo_read_trajectory demo_mav0
                   "mav0" _ euroc_import_metadata_demo _)).
  intros a b Hin. vm_compute in Hin.
  repeat (apply elem_of_cons in Hin as [Hin|Hin];
          [by injection Hin as -> ->|]).
  by apply elem_of_nil in Hin.
Defined.

(** ** Adding and reordering secondary series *)

Section associate_data_keys.
Context {V : Type}.
Variable associate : gmap Z V → gmap Z V → Z → Z → list (Z * Z).
Variable max_difference : Z.
Implicit Types (root other : gmap Z V) (args : list (gmap Z V)).

Lemma sorted_keys_unique (l1 l2 : list Z) :
  StronglySorted Z.lt l1 → StronglySorted Z.lt l2 →
  (∀ k, k ∈ l1 ↔ k ∈ l2) → l1 = l2.
Proof.
  intros H1 H2 Hiff. apply (StronglySorted_unique_strong Z.lt); [|done..|].
  - intros x1 x2 _ _. lia.
  - apply NoDup_Permutation; [by apply StronglySorted_NoDup_lt..|done].
Qed.

Lemma greedy_in_range root args (md : Z) :
  matches_in_range greedy_associate md root args.
Proof.
  intros other a b _ Hin.
  by apply greedy_associate_in_range in Hin as (_ & Hb & _).
Qed.

End associate_data_keys.

(** X18. On the general path a further secondary series can only remove
    rows: the rows that remain are those whose key [associate] also
    matched in the new series. *)
Theorem associate_data_more_series_fewer_rows {V : Type}
    (associate : gmap Z V → gmap Z V → Z → Z → list (Z * Z))
    (max_difference : Z) (root : gmap Z V) (args : list (gmap Z V))
    (extra : gmap Z V) :
  ¬ Forall (λ other : gmap Z V, dom other = dom root) args →
  matches_in_range associate max_difference root (args ++ [extra]) →
  ∃ rows rows' : list (row V),
    associate_data associate max_difference root args = Some rows
    ∧ associate_data associate max_difference root (args ++ [extra])
      = Some rows'
    ∧ ∀ k, k ∈ rows'.*1 ↔
           k ∈ rows.*1
           ∧ k ∈ matched_keys associate max_difference root extra.
Proof.
  intros Hdiff Hrange.
  destruct (associate_data_matched associate max_difference root args Hdiff)
    as (rows & keys & maps & Hrows & (_ & Hkeys & _) & Hmatched).
  { intros other a b Hother. apply Hrange, elem_of_app. by left. }
  destruct (associate_data_matched associate max_difference root
              (args ++ [extra]))
    as (rows' & keys' & maps' & Hrows' & (_ & Hkeys' & _) & Hmatched');
    [|done|].
  { intros [Hsame _]%Forall_app. done. }
  exists rows, rows'. split; [done|]. split; [done|].
  intros k. rewrite Hkeys, Hkeys', Hmatched, Hmatched'. split.
  - intros [Hk Hall]. split; [split; [done|]|].
    + intros other Hother. apply Hall, elem_of_app. by left.
    + apply Hall, elem_of_app. right. by apply list_elem_of_singleton.
  - intros [[Hk Hall] Hextra]. split; [done|].
    intros other [Hother|Hother]%elem_of_app; [by apply Hall|].
    by apply list_elem_of_singleton in Hother as ->.
Qed.

Lemma associate_data_more_series_fewer_rows_witness :
  ¬ Forall (λ other : gmap Z Z, dom other = dom demo_root) [demo_near]
  ∧ matches_in_range greedy_associate 1 demo_root ([demo_near] ++ [demo_none])
  ∧ ∃ rows rows' : list (row Z),
      associate_data greedy_associate 1 demo_root [demo_near] = Some rows
      ∧ associate_data greedy_associate 1 demo_root ([demo_near] ++ [demo_none])
        = Some rows'
      ∧ ∀ k, k ∈ rows'.*1 ↔
             k ∈ rows.*1 ∧ k ∈ matched_keys greedy_associate 1 demo_root demo_none.
Proof.
  assert (¬ Forall (λ other : gmap Z Z, dom other = dom demo_root) [demo_near])
    as Hdiff.
  { intros Hsame. apply Forall_cons in Hsame as [Hsame _].
    vm_compute in Hsame. discriminate Hsame. }
  pose proof (greedy_in_range demo_root ([demo_near] ++ [demo_none]) 1)
    as Hrange.
  split; [exact Hdiff|]. split; [exact Hrange|].
  exact (associate_data_more_series_fewer_rows greedy_associate 1 demo_root
           [demo_near] demo_none Hdiff Hrange).
Defined.

(** X19. The order of the secondary series decides the order of the
    payloads in a row, not which rows there are: two calls that differ
    only in the order of the secondary series return rows with the same
    keys. *)
Theorem associate_data_series_order {V : Type}
    (associate : gmap Z V → gmap Z V → Z → Z → list (Z * Z))
    (max_difference : Z) (root : gmap Z V) (args args' : list (gmap Z V)) :
  args' ≡ₚ args →
  matches_in_range associate max_difference root args →
  ∃ rows rows' : list (row V),
    associate_data associate max_difference root args = Some rows
    ∧ associate_data associate max_difference root args' = Some rows'
    ∧ rows'.*1 = rows.*1.
Proof.
  intros Hperm Hrange.
  assert (matches_in_range associate max_difference root args') as Hrange'.
  { intros other a b Hother. apply Hrange. by rewrite <- Hperm. }
  destruct (decide (Forall (λ other : gmap Z V, dom other = dom root) args))
    as [Hsame|Hdiff].
  - destruct (associate_data_same associate max_difference root args Hsame)
      as (rows & Hrows & Hsorted & Hkeys & _).
    destruct (associate_data_same associate max_difference root args')
      as (rows' & Hrows' & Hsorted' & Hkeys' & _); [by rewrite Hperm|].
    exists rows, rows'. split; [done|]. split; [done|].
    apply sorted_keys_unique; [done..|]. intros k. by rewrite Hkeys, Hkeys'.
  - destruct (associate_data_matched associate max_difference root args
                Hdiff Hrange)
      as (rows & keys & maps & Hrows & (Hsorted & Hkeys & _) & Hmatched).
    destruct (associate_data_matched associate max_difference root args')
      as (rows' & keys' & maps' & Hrows' & (Hsorted' & Hkeys' & _) & Hmatched');
      [by rewrite Hperm|done|].
    exists rows, rows'. split; [done|]. split; [done|].
    apply sorted_keys_unique; [done..|]. intros k.
    rewrite Hkeys, Hkeys', Hmatched, Hmatched'.
    by setoid_rewrite Hperm.
Qed.

Lemma associate_data_series_order_witness :
  [demo_far; demo_near] ≡ₚ [demo_near; demo_far]
  ∧ matches_in_range greedy_associate 1 demo_root [demo_near; demo_far]
  ∧ ∃ rows rows' : list (row Z),
      associate_data greedy_associate 1 demo_root [demo_near; demo_far]
      = Some rows
      ∧ associate_data greedy_associate 1 demo_root [demo_far; demo_near]
        = Some rows'
      ∧ rows'.*1 = rows.*1.
Proof.
  assert ([demo_far; demo_near] ≡ₚ [demo_near; demo_far]) as Hperm
    by apply Permutation_swap.
  pose proof (greedy_in_range demo_root [demo_near; demo_far] 1) as Hrange.
  split; [exact Hperm|]. split; [exact Hrange|].
  exact (associate_data_series_order greedy_associate 1 demo_root
           [demo_near; demo_far] [demo_far; demo_near] Hperm Hrange).
Defined.

(** ** The three files are three files *)

Section distinct_paths.
Local Open Scope string_scope.

Lemma os_path_join_inj (a b b' : string) :
  startswith_sep b = false → startswith_sep b' = false →
  os_path_join a b = os_path_join a b' → b = b'.
Proof.
  unfold os_path_join. intros -> ->.
  destruct (bool_decide (a = "") || endswith_sep a).
  - apply (inj (String.append a)).
  - intros Heq%(inj (String.append a)). by injection Heq.
Qed.

(** X21. The three paths that [find_files] returns are three different
    paths, so the exchange of the last two in [import_dataset] is not
    idle: the trajectory is read from a file that is not the
    [groundtruth.txt] of the folder, and the depth file names from a file
    that is not its [depth.txt]. *)
Theorem import_dataset_reads_other_files (fs : FileSystem) (fuel : nat)
    (folder : string) (paths : ImportPaths) :
  import_dataset_paths fs fuel folder = Return paths →
  trajectory_source paths ≠ os_path_join (root_folder paths) "groundtruth.txt"
  ∧ depth_files_source paths ≠ os_path_join (root_folder paths) "depth.txt"
  ∧ image_files_source paths ≠ trajectory_source paths
  ∧ image_files_source paths ≠ depth_files_source paths.
Proof.
  unfold import_dataset_paths.
  destruct (isdir fs folder); simpl; [|discriminate].
  destruct (find_files fs fuel folder) as [[[[root p1] p2] p3]|e|] eqn:Hfind;
    [|discriminate..].
  intros [= <-]. simpl.
  apply find_files_loop_order in Hfind as (-> & -> & ->).
  repeat split; intros Heq%os_path_join_inj; done.
Qed.

Lemma import_dataset_reads_other_files_witness :
  import_dataset_paths demo_fs 5 "data"
  = Return (mkImportPaths "data/seq" "data/seq/rgb.txt" "data/seq/depth.txt"
              "data/seq/groundtruth.txt")
  ∧ trajectory_source
      (mkImportPaths "data/seq" "data/seq/rgb.txt" "data/seq/depth.txt"
         "data/seq/groundtruth.txt")
    ≠ os_path_join "data/seq" "groundtruth.txt".
Proof.
  split; [exact import_dataset_paths_demo|].
  exact (proj1 (import_dataset_reads_other_files demo_fs 5 "data" _
                  import_dataset_paths_demo)).
Defined.

End distinct_paths.
